(** * repo-rss-feed: the release classifier and the feed assembler

    A shallow embedding of [src/generate-feed.ts] (the definitions of the
    second, later copy in the file, which redefine those of the first) and
    the properties of its classification and feed-assembly pipeline.

    Conventions.
    - A JavaScript string is the list of its UTF-16 code units ([jsstring]).
    - [undefined] and [null] are both [None]; the code tests them with
      [??], [!x] and [x ? _ : _], which do not tell them apart, and hands
      [htmlUrl] to [escapeXml], whose [value.replace] throws a [TypeError]
      for either (the message kept is the one for [undefined]).
    - A number that the code only inspects through [Number.isInteger],
      [=== 0] or the sign of a difference is kept as an exact integer
      together with the cases NaN and Infinity ([jsnumber]). *)

From Stdlib Require Import List ZArith NArith String Ascii Bool Lia Arith.
From Stdlib Require Import Permutation Sorted DecimalString.
Import ListNotations.

Set Implicit Arguments.

(* ================================================================== *)
(** * Strings as sequences of UTF-16 code units *)
(* ================================================================== *)

Definition char16 := N.
Definition jsstring := list char16.

(** The code units of an ASCII literal. *)
Definition js (s : string) : jsstring :=
  map N_of_ascii (list_ascii_of_string s).

Definition chr (a : ascii) : char16 := N_of_ascii a.

Fixpoint jsstring_eqb (a b : jsstring) : bool :=
  match a, b with
  | [], [] => true
  | x :: a', y :: b' => N.eqb x y && jsstring_eqb a' b'
  | _, _ => false
  end.

(** Truthiness of a string: [!s] is true exactly for the empty string. *)
Definition truthy (s : jsstring) : bool :=
  match s with [] => false | _ :: _ => true end.

(** Truthiness of [string | undefined]. *)
Definition truthy_opt (s : option jsstring) : bool :=
  match s with Some t => truthy t | None => false end.

(** [a ?? b] *)
Definition nullish {A} (a : option A) (b : A) : A :=
  match a with Some x => x | None => b end.

(** A value inside a template literal: [undefined] prints as its name. *)
Definition template (s : option jsstring) : jsstring :=
  match s with Some t => t | None => js "undefined" end.

(** ** Character classes of the regular expressions in the source *)

Definition isChar (c : char16) (a : ascii) : bool := N.eqb c (N_of_ascii a).

(** [\d] (without the [u] flag): the ten ASCII digits. *)
Definition isDigit (c : char16) : bool := (N.leb 48 c && N.leb c 57)%N.

(** LineTerminator of ECMAScript: LF, CR, LS, PS. *)
Definition isLineTerminator (c : char16) : bool :=
  N.eqb c 10 || N.eqb c 13 || N.eqb c 8232 || N.eqb c 8233.

(** [.] (without the [s] flag): any code unit but a line terminator. *)
Definition isDot (c : char16) : bool := negb (isLineTerminator c).

(** [\s], which is also what [trim] strips: WhiteSpace and LineTerminator. *)
Definition isSpace (c : char16) : bool :=
  (N.leb 9 c && N.leb c 13) || N.eqb c 32 || N.eqb c 160 || N.eqb c 5760
  || (N.leb 8192 c && N.leb c 8202) || N.eqb c 8232 || N.eqb c 8233
  || N.eqb c 8239 || N.eqb c 8287 || N.eqb c 12288 || N.eqb c 65279.

(** [[\s\S]] *)
Definition isAny (_ : char16) : bool := true.

(** Canonicalisation of the [i] flag restricted to what the patterns of the
    source contain, ASCII letters: a code unit of 128 or more never
    canonicalises to an ASCII letter. *)
Definition upper (c : char16) : char16 :=
  if (N.leb 97 c && N.leb c 122)%N then (c - 32)%N else c.

Definition isCI (a : ascii) (c : char16) : bool :=
  N.eqb (upper c) (upper (N_of_ascii a)).

(* ================================================================== *)
(** * Numbers read from digit strings *)
(* ================================================================== *)

(** The result of [Number(s)] as far as the classifier looks at it. [JNum z]
    stands for the double nearest to the integer [z]: it is an integer, and
    it is zero exactly when [z] is. *)
Inductive jsnumber :=
| JNaN
| JInf
| JNum (z : Z).

(** Decimal digit strings from this value on round to Infinity
    (2^1024 - 2^970, half an ulp above the largest double). *)
Definition double_overflow : Z := (2 ^ 1024 - 2 ^ 970)%Z.

Fixpoint decimal_value (acc : Z) (s : jsstring) : option Z :=
  match s with
  | [] => Some acc
  | c :: s' =>
      if isDigit c then decimal_value (10 * acc + (Z.of_N c - 48))%Z s'
      else None
  end.

(** [Number(s)] for the strings the classifier passes, the captures of [\d+].
    The empty string converts to 0; any other string that is not a digit
    string is read as NaN here (no capture of [\d+] is one). *)
Definition Number (s : jsstring) : jsnumber :=
  match decimal_value 0 s with
  | Some z => if (z <? double_overflow)%Z then JNum z else JInf
  | None => JNaN
  end.

(** [Number(x)] for [x : string | undefined]; [Number(undefined)] is NaN. *)
Definition Number_opt (s : option jsstring) : jsnumber :=
  match s with Some t => Number t | None => JNaN end.

Definition Number_isInteger (n : jsnumber) : bool :=
  match n with JNum _ => true | _ => false end.

(** [n === 0] *)
Definition is_zero (n : jsnumber) : bool :=
  match n with JNum z => Z.eqb z 0 | _ => false end.

(* ================================================================== *)
(** * A backtracking matcher for the regular expressions of the source *)
(* ================================================================== *)

(** The fragment of ECMAScript patterns that the source uses: character
    classes, concatenation, the greedy [?] on a group, the greedy and the
    lazy star on a character class, named groups, [^] and [$]. *)
Inductive regex :=
| Empty
| Cls (p : char16 -> bool)
| Seq (a b : regex)
| Opt (a : regex)
| StarG (p : char16 -> bool)
| StarL (p : char16 -> bool)
| Group (name : string) (a : regex)
| Bos
| Eos.

Definition PlusG (p : char16 -> bool) : regex := Seq (Cls p) (StarG p).

Fixpoint Lit (s : string) : regex :=
  match s with
  | EmptyString => Empty
  | String a s' => Seq (Cls (fun c => isChar c a)) (Lit s')
  end.

(** A literal under the [i] flag. *)
Fixpoint LitCI (s : string) : regex :=
  match s with
  | EmptyString => Empty
  | String a s' => Seq (Cls (isCI a)) (LitCI s')
  end.

(** Named captures, most recent first. *)
Definition captures := list (string * jsstring).

Fixpoint group (name : string) (g : captures) : option jsstring :=
  match g with
  | [] => None
  | (n, v) :: g' => if String.eqb n name then Some v else group name g'
  end.

Section Matcher.

(** Length of the whole subject string: [^] holds where nothing has been
    consumed yet. *)
Variable input_len : nat.

Definition mresult := option (jsstring * captures).
Definition cont := jsstring -> captures -> mresult.

Fixpoint starGreedy (p : char16 -> bool) (s : jsstring) (g : captures)
    (k : cont) : mresult :=
  match s with
  | c :: s' =>
      if p c then
        match starGreedy p s' g k with
        | Some r => Some r
        | None => k s g
        end
      else k s g
  | [] => k s g
  end.

Fixpoint starLazy (p : char16 -> bool) (s : jsstring) (g : captures)
    (k : cont) : mresult :=
  match k s g with
  | Some r => Some r
  | None =>
      match s with
      | c :: s' => if p c then starLazy p s' g k else None
      | [] => None
      end
  end.

(** [m r s g k]: match [r] at the front of the remaining input [s], then
    continue with [k]; alternatives are tried in the priority order of
    ECMAScript, the first success wins. *)
Fixpoint m (r : regex) (s : jsstring) (g : captures) (k : cont)
    {struct r} : mresult :=
  match r with
  | Empty => k s g
  | Cls p =>
      match s with
      | c :: s' => if p c then k s' g else None
      | [] => None
      end
  | Seq a b => m a s g (fun s1 g1 => m b s1 g1 k)
  | Opt a =>
      match m a s g (fun s1 g1 =>
               if List.length s1 <? List.length s then k s1 g1 else None) with
      | Some r => Some r
      | None => k s g
      end
  | StarG p => starGreedy p s g k
  | StarL p => starLazy p s g k
  | Group n a =>
      m a s g (fun s1 g1 =>
                 k s1 ((n, firstn (List.length s - List.length s1) s) :: g1))
  | Bos => if List.length s =? input_len then k s g else None
  | Eos => match s with [] => k s g | _ :: _ => None end
  end.

(** The matches of [r], as a relation: from input [s] and captures [g] to
    the rest [s1] and captures [g1]. *)
Inductive Matches : regex -> jsstring -> captures -> jsstring -> captures
                    -> Prop :=
| M_empty s g : Matches Empty s g s g
| M_cls p c s g : p c = true -> Matches (Cls p) (c :: s) g s g
| M_seq a b s g s1 g1 s2 g2 :
    Matches a s g s1 g1 -> Matches b s1 g1 s2 g2 ->
    Matches (Seq a b) s g s2 g2
| M_opt_in a s g s1 g1 :
    Matches a s g s1 g1 -> List.length s1 < List.length s ->
    Matches (Opt a) s g s1 g1
| M_opt_out a s g : Matches (Opt a) s g s g
| M_starG p x s g : Forall (fun c => p c = true) x ->
    Matches (StarG p) (x ++ s) g s g
| M_starL p x s g : Forall (fun c => p c = true) x ->
    Matches (StarL p) (x ++ s) g s g
| M_group n a s g s1 g1 :
    Matches a s g s1 g1 ->
    Matches (Group n a) s g s1 ((n, firstn (List.length s - List.length s1) s) :: g1)
| M_bos s g : List.length s = input_len -> Matches Bos s g s g
| M_eos g : Matches Eos [] g [] g.

End Matcher.

(** [regex.exec(input)] for a pattern without the [g] and [y] flags: the
    first start position, from the left, at which the pattern matches. The
    result is the rest of the input after the match and the groups. *)
Fixpoint execFrom (r : regex) (len : nat) (s : jsstring) : mresult :=
  match m len r s [] (fun s1 g1 => Some (s1, g1)) with
  | Some res => Some res
  | None =>
      match s with
      | [] => None
      | _ :: s' => execFrom r len s'
      end
  end.

Definition exec (r : regex) (input : jsstring) : mresult :=
  execFrom r (List.length input) input.

(* ================================================================== *)
(** * The classifier: [isMajorOrMinorRelease] *)
(* ================================================================== *)

(** [semverRegex] of the source, piece by piece:
    [^] [v?] [(?<major>\d+)] [\.] [(?<minor>\d+)] [(?:\.(?<patch>\d+))?]
    then the optional group [suffix], one of [-] and [+] followed by a
    greedy star of [.], and [$]. *)
Definition semverRegex : regex :=
  Seq Bos
 (Seq (Opt (Cls (fun c => isChar c "v")))
 (Seq (Group "major" (PlusG isDigit))
 (Seq (Cls (fun c => isChar c "."))
 (Seq (Group "minor" (PlusG isDigit))
 (Seq (Opt (Seq (Cls (fun c => isChar c ".")) (Group "patch" (PlusG isDigit))))
 (Seq (Opt (Group "suffix"
             (Seq (Cls (fun c => isChar c "-" || isChar c "+")) (StarG isDot))))
      Eos)))))).

(** [patch ? Number(patch) : 0] *)
Definition patchNumberOf (patch : option jsstring) : jsnumber :=
  if truthy_opt patch then Number_opt patch else JNum 0.

Definition isMajorOrMinorRelease (tag : option jsstring) : bool :=
  match tag with
  | None => false
  | Some t =>
      if negb (truthy t) then false
      else
        match exec semverRegex t with
        | None => false
        | Some (_, groups) =>
            let major := group "major" groups in
            let minor := group "minor" groups in
            let patch := group "patch" groups in
            let majorNumber := Number_opt major in
            let minorNumber := Number_opt minor in
            let patchNumber := patchNumberOf patch in
            if negb (forallb Number_isInteger
                       [majorNumber; minorNumber; patchNumber])
            then false
            else is_zero patchNumber
        end
  end.


(* ================================================================== *)
(** * String helpers of the standard library of JavaScript *)
(* ================================================================== *)

(** [s.replace(r, repl)] for a pattern [r] with the [g] flag and a
    replacement without [$]: every match, found from the left and without
    overlap, is replaced. [skip] counts the code units still covered by the
    match that was just replaced; after an empty match the search moves on
    by one code unit. *)
Fixpoint replaceFrom (r : regex) (len : nat) (repl : jsstring) (skip : nat)
    (s : jsstring) : jsstring :=
  match s with
  | [] =>
      match skip, m len r [] [] (fun s1 g1 => Some (s1, g1)) with
      | O, Some _ => repl
      | _, _ => []
      end
  | c :: s' =>
      match skip with
      | S n => replaceFrom r len repl n s'
      | O =>
          match m len r s [] (fun s1 g1 => Some (s1, g1)) with
          | Some (s1, _) =>
              match List.length s - List.length s1 with
              | O => repl ++ c :: replaceFrom r len repl 0 s'
              | S n => repl ++ replaceFrom r len repl n s'
              end
          | None => c :: replaceFrom r len repl 0 s'
          end
      end
  end.

Definition replaceAll (r : regex) (repl : jsstring) (s : jsstring) : jsstring :=
  replaceFrom r (List.length s) repl 0 s.

Fixpoint trimStart (s : jsstring) : jsstring :=
  match s with
  | c :: s' => if isSpace c then trimStart s' else s
  | [] => []
  end.

Definition trimEnd (s : jsstring) : jsstring := rev (trimStart (rev s)).

Definition trim (s : jsstring) : jsstring := trimEnd (trimStart s).

(** [s.split(sep)] for a separator of one code unit. *)
Fixpoint split (sep : char16) (s : jsstring) : list jsstring :=
  match s with
  | [] => [[]]
  | c :: s' =>
      if N.eqb c sep then [] :: split sep s'
      else
        match split sep s' with
        | h :: t => (c :: h) :: t
        | [] => [[c]]
        end
  end.

(** [s.endsWith(suffix)] *)
Definition endsWith (s suffix : jsstring) : bool :=
  jsstring_eqb (skipn (List.length s - List.length suffix) s) suffix.

(** [xs.join(sep)] *)
Fixpoint join (sep : jsstring) (xs : list jsstring) : jsstring :=
  match xs with
  | [] => []
  | [x] => x
  | x :: xs' => x ++ sep ++ join sep xs'
  end.

(** [xs.slice(0, end)] for an integer [end]: a negative [end] counts from
    the back of the array. *)
Definition slice0 {A} (end_ : Z) (xs : list A) : list A :=
  let len := Z.of_nat (List.length xs) in
  let final := if (end_ <? 0)%Z then Z.max (len + end_) 0 else Z.min end_ len in
  firstn (Z.to_nat final) xs.

(** [String(n)] for a natural number. *)
Definition decimal (n : N) : jsstring :=
  js (NilZero.string_of_uint (N.to_uint n)).

Definition dquote : jsstring := [34%N].

Definition newline : jsstring := [10%N].

(* ================================================================== *)
(** * Dates *)
(* ================================================================== *)

(** A [Date] object is its time value: milliseconds since the epoch, or
    [None] for an invalid date (time value NaN). *)
Definition Date := option Z.

Local Open Scope Z_scope.

Definition msPerDay : Z := 86400000.

(** Year, month (1 to 12) and day of the month of a day number counted from
    1970-01-01, in the proleptic Gregorian calendar. *)
Definition civil_from_days (days : Z) : Z * Z * Z :=
  let z := days + 719468 in
  let era := z / 146097 in
  let doe := z - era * 146097 in
  let yoe := (doe - doe / 1460 + doe / 36524 - doe / 146096) / 365 in
  let doy := doe - (365 * yoe + yoe / 4 - yoe / 100) in
  let mp := (5 * doy + 2) / 153 in
  let d := doy - (153 * mp + 2) / 5 + 1 in
  let mo := if mp <? 10 then mp + 3 else mp - 9 in
  let y := yoe + era * 400 + (if mo <=? 2 then 1 else 0) in
  (y, mo, d).

Definition dayName (w : Z) : jsstring :=
  nth (Z.to_nat w)
    [js "Sun"; js "Mon"; js "Tue"; js "Wed"; js "Thu"; js "Fri"; js "Sat"] [].

Definition monthName (mo : Z) : jsstring :=
  nth (Z.to_nat (mo - 1))
    [js "Jan"; js "Feb"; js "Mar"; js "Apr"; js "May"; js "Jun";
     js "Jul"; js "Aug"; js "Sep"; js "Oct"; js "Nov"; js "Dec"] [].

(** A non-negative integer in decimal, padded with zeros to [width]. *)
Definition padded (width : nat) (n : Z) : jsstring :=
  let d := decimal (Z.to_N n) in
  repeat 48%N (width - List.length d) ++ d.

(** [HH:mm:ss] of a time value. *)
Definition timeOfDay (t : Z) : jsstring :=
  let ms := t mod msPerDay in
  padded 2 (ms / 3600000) ++ js ":" ++ padded 2 (ms / 60000 mod 60)
  ++ js ":" ++ padded 2 (ms / 1000 mod 60).

(** [date.toUTCString()] *)
Definition toUTCString (d : Date) : jsstring :=
  match d with
  | None => js "Invalid Date"
  | Some t =>
      let days := t / msPerDay in
      let '(y, mo, dd) := civil_from_days days in
      dayName ((days + 4) mod 7) ++ js ", " ++ padded 2 dd ++ js " "
      ++ monthName mo ++ js " "
      ++ (if y <? 0 then js "-" else []) ++ padded 4 (Z.abs y) ++ js " "
      ++ timeOfDay t ++ js " GMT"
  end.

(** [date.toISOString()] of a valid date: years outside 0 to 9999 take a
    sign and six digits. *)
Definition toISOString (t : Z) : jsstring :=
  let days := t / msPerDay in
  let '(y, mo, dd) := civil_from_days days in
  (if (0 <=? y) && (y <=? 9999) then padded 4 y
   else (if y <? 0 then js "-" else js "+") ++ padded 6 (Z.abs y))
  ++ js "-" ++ padded 2 mo ++ js "-" ++ padded 2 dd ++ js "T"
  ++ timeOfDay t ++ js "." ++ padded 3 (t mod 1000) ++ js "Z".

Local Close Scope Z_scope.

(* ================================================================== *)
(** * Data model *)
(* ================================================================== *)

(** An object entry of [repos.json]. The interface [RepoConfig] declares
    [slug] and [maxReleases]; the README also documents a field
    [includePatchReleases], which the JSON object may carry and which stays
    on the object through the cast of [loadRepoList]. A fractional
    [maxReleases] is not modelled. *)
Record RepoConfig := {
  entry_slug : jsstring;
  entry_maxReleases : option Z;
  entry_includePatchReleases : option bool
}.

(** An element of the [repositories] array: a string, an object with a
    string [slug], or any other JSON value (given by its
    [JSON.stringify] text). *)
Inductive ConfigEntry :=
| EntrySlug (s : jsstring)
| EntryObject (c : RepoConfig)
| EntryOther (json : jsstring).

Record NormalizedRepoConfig := {
  slug : jsstring;
  maxReleases : Z
}.

(** A release as [response.json()] gives it. The interface declares
    [html_url] a string, nothing checks it at run time, and the code reads
    it through [??]: a release without it is [None]. *)
Record GitHubRelease := {
  release_id : Z;
  html_url : option jsstring;
  tag_name : option jsstring;
  release_name : option jsstring;
  body : option jsstring;
  draft : bool;
  prerelease : bool;
  published_at : option jsstring;
  created_at : option jsstring
}.

(** [htmlUrl] is [release.html_url] as it is, [undefined] included. *)
Record FeedItem := {
  repoSlug : jsstring;
  htmlUrl : option jsstring;
  tagName : jsstring;
  publishedAt : option jsstring;
  descriptionHtml : jsstring;
  item_id : jsstring;
  item_name : jsstring
}.

(** A thrown [Error], by its message, or a value. *)
Inductive result (A : Type) :=
| Ok (a : A)
| Err (message : jsstring).
Arguments Ok {A} a.
Arguments Err {A} message.

Definition SITE_TITLE : jsstring := js "Major & Minor Releases Feed".
Definition SITE_DESCRIPTION : jsstring :=
  js "Aggregated RSS feed with the latest major/minor releases from selected GitHub repositories.".
Definition SITE_LINK : jsstring := js "https://example.com/rss".
Definition SITE_LANGUAGE : jsstring := js "en".
Definition SITE_TTL : N := 180.
Definition SITE_GENERATOR : jsstring := js "repo-rss generator".

Definition DEFAULT_MAX_RELEASES_PER_REPO : Z := 10.

(* ================================================================== *)
(** * Configuration *)
(* ================================================================== *)

Definition parseConfigEntry (entry : ConfigEntry) : result NormalizedRepoConfig :=
  match entry with
  | EntrySlug s =>
      Ok {| slug := s; maxReleases := DEFAULT_MAX_RELEASES_PER_REPO |}
  | EntryObject c =>
      Ok {| slug := entry_slug c;
            maxReleases :=
              nullish (entry_maxReleases c) DEFAULT_MAX_RELEASES_PER_REPO |}
  | EntryOther json => Err (js "Invalid repository entry: " ++ json)
  end.

(** [entries.map(parseConfigEntry)]: the first entry that throws ends the
    map. *)
Fixpoint parseConfigEntries (entries : list ConfigEntry)
    : result (list NormalizedRepoConfig) :=
  match entries with
  | [] => Ok []
  | e :: es =>
      match parseConfigEntry e with
      | Err msg => Err msg
      | Ok c =>
          match parseConfigEntries es with
          | Err msg => Err msg
          | Ok cs => Ok (c :: cs)
          end
      end
  end.

(* ================================================================== *)
(** * Fetching, classifying and normalising the releases of a repository *)
(* ================================================================== *)

(** What [fetchReleasesForRepo] hands to the network: the text given to
    [new URL], the [per_page] parameter set on the URL and the bearer token,
    when there is one. [new URL] parses that text and normalises it (dot
    segments, a [?] or a [#] inside a segment), so the address asked for is
    a function of [url_text], not always the text itself; what the network
    answers is a function of the request, [fetch] below. *)
Record Request := {
  url_text : jsstring;
  per_page : Z;
  authorization : option jsstring
}.

(** What comes back: [fetch] rejects, the status is not a success, the body
    is not JSON, the JSON is not an array, or it is an array of releases. *)
Inductive Response :=
| NetworkError (message : jsstring)
| HttpError (status : N) (statusText : jsstring)
| InvalidJson (message : jsstring)
| NotAnArray
| Releases (releases : list GitHubRelease).

Definition renderMarkdownToHtml (marked_parse : jsstring -> jsstring)
    (markdown : jsstring) : jsstring :=
  let trimmed := trim markdown in
  if negb (truthy trimmed) then []
  else trim (marked_parse trimmed).

(** The first filter of [fetchReleasesForRepo]. *)
Definition isPublished (release : GitHubRelease) : bool :=
  negb (draft release) && negb (prerelease release).

(** The object built by the [map] of [fetchReleasesForRepo]. *)
Definition normalize (marked_parse : jsstring -> jsstring) (slug_ : jsstring)
    (release : GitHubRelease) : FeedItem :=
  {| repoSlug := slug_;
     htmlUrl := html_url release;
     tagName := nullish (tag_name release) (js "unknown");
     publishedAt :=
       match published_at release with
       | Some p => Some p
       | None => created_at release
       end;
     descriptionHtml :=
       renderMarkdownToHtml marked_parse (nullish (body release) []);
     item_id :=
       nullish (html_url release)
         (slug_ ++ js "@" ++ template (tag_name release));
     item_name :=
       nullish (release_name release)
         (slug_ ++ js " " ++ template (tag_name release)) |}.

(** The chain [filter], [filter], [slice], [map] on the array of releases. *)
Definition selectReleases (marked_parse : jsstring -> jsstring)
    (cfg : NormalizedRepoConfig) (releases : list GitHubRelease)
    : list FeedItem :=
  map (normalize marked_parse (slug cfg))
    (slice0 (maxReleases cfg)
       (filter (fun release => isMajorOrMinorRelease (tag_name release))
          (filter isPublished releases))).

(** The first part of [fetchReleasesForRepo]: the check of the slug and the
    request. *)
Definition requestFor (token : option jsstring) (cfg : NormalizedRepoConfig)
    : result Request :=
  let parts := split (chr "/") (slug cfg) in
  let owner := nth_error parts 0 in
  let repo := nth_error parts 1 in
  if negb (truthy_opt owner) || negb (truthy_opt repo) then
    Err (js "Repository slug " ++ dquote ++ slug cfg ++ dquote
         ++ js " must be in " ++ dquote ++ js "owner/name" ++ dquote
         ++ js " format.")
  else
    Ok {| url_text := js "https://api.github.com/repos/" ++ nullish owner []
                      ++ js "/" ++ nullish repo [] ++ js "/releases";
          per_page := Z.min (maxReleases cfg * 2) 50;
          authorization := if truthy_opt token then token else None |}.

Definition fetchReleasesForRepo (marked_parse : jsstring -> jsstring)
    (token : option jsstring) (fetch : Request -> Response)
    (cfg : NormalizedRepoConfig) : result (list FeedItem) :=
  match requestFor token cfg with
  | Err message => Err message
  | Ok request =>
      match fetch request with
      | NetworkError message => Err message
      | HttpError status statusText =>
          Err (js "GitHub API request failed for " ++ slug cfg ++ js ": "
               ++ decimal status ++ js " " ++ statusText)
      | InvalidJson message => Err message
      | NotAnArray => Err (js "Unexpected response format for " ++ slug cfg)
      | Releases releases => Ok (selectReleases marked_parse cfg releases)
      end
  end.

(* ================================================================== *)
(** * Escaping and text helpers of the serialiser *)
(* ================================================================== *)

Definition escapeXml (value : jsstring) : jsstring :=
  replaceAll (Lit "'") (js "&apos;")
   (replaceAll (Cls (fun c => N.eqb c 34)) (js "&quot;")
     (replaceAll (Lit ">") (js "&gt;")
       (replaceAll (Lit "<") (js "&lt;")
         (replaceAll (Lit "&") (js "&amp;") value)))).

(** The pattern of [wrapInCdata]: the three code units that end a CDATA
    section. *)
Definition cdataEnd : regex := Lit "]]>".

Definition wrapInCdata (tagName_ value : jsstring) : jsstring :=
  let safeValue := replaceAll cdataEnd (js "]]]]><![CDATA[>") value in
  js "<" ++ tagName_ ++ js "><![CDATA[" ++ safeValue ++ js "]]></"
  ++ tagName_ ++ js ">".

Definition stripHtmlTags (value : jsstring) : jsstring :=
  trim
   (replaceAll (PlusG isSpace) (js " ")
     (replaceAll (LitCI "&nbsp;") (js " ")
       (replaceAll
          (Seq (Lit "<")
             (Seq (PlusG (fun c => negb (isChar c ">"))) (Lit ">")))
          (js " ")
         (replaceAll
            (Seq (LitCI "<style") (Seq (StarL isAny) (LitCI "</style>")))
            (js " ")
           (replaceAll
              (Seq (LitCI "<script") (Seq (StarL isAny) (LitCI "</script>")))
              (js " ") value))))).

Definition buildSummary (html : jsstring) : jsstring :=
  let fallback := js "No release notes provided." in
  if negb (truthy html) then fallback
  else
    let text := stripHtmlTags html in
    if negb (truthy text) then fallback
    else
      let MAX_LENGTH := 300 in
      if List.length text <=? MAX_LENGTH then text
      else trim (firstn (MAX_LENGTH - 3) text) ++ js "...".

Definition buildFeedUrl (siteLink : jsstring) : jsstring :=
  let normalized :=
    if endsWith siteLink (js "/") then siteLink else siteLink ++ js "/" in
  normalized ++ js "feed.xml".

(** [item.descriptionHtml || '<p>No release notes provided.</p>'] *)
Definition contentHtml (item : FeedItem) : jsstring :=
  if truthy (descriptionHtml item) then descriptionHtml item
  else js "<p>No release notes provided.</p>".

Definition contentElement (item : FeedItem) : jsstring :=
  wrapInCdata (js "content:encoded") (contentHtml item).

(** The message of the [TypeError] of [value.replace] in [escapeXml] when
    the value is [undefined], as Node.js words it. *)
Definition undefinedReplace : jsstring :=
  js "Cannot read properties of undefined (reading 'replace')".

(** The text of an item whose [htmlUrl] is the string [link], given the
    text of its publication date: the array of lines, without the entries
    that are [undefined], joined by line feeds. *)
Definition itemText (item : FeedItem) (link pubDate : jsstring) : jsstring :=
  let title := repoSlug item ++ js " " ++ tagName item in
  let summary := buildSummary (descriptionHtml item) in
  let descriptionElement :=
    js "<description>" ++ escapeXml summary ++ js "</description>" in
  let parts := split (chr "/") (repoSlug item) in
  let owner := nth_error parts 0 in
  let repo := nth_error parts 1 in
  let repoUrl := js "https://github.com/" ++ repoSlug item in
  join newline
    (filter truthy
      [ js "    <item>";
        js "      <title>" ++ escapeXml title ++ js "</title>";
        js "      <link>" ++ escapeXml link ++ js "</link>";
        js "      <guid"
          ++ (if jsstring_eqb (item_id item) link
              then js " isPermaLink=" ++ dquote ++ js "true" ++ dquote
              else js " isPermaLink=" ++ dquote ++ js "false" ++ dquote)
          ++ js ">" ++ escapeXml (item_id item) ++ js "</guid>";
        js "      <pubDate>" ++ escapeXml pubDate ++ js "</pubDate>";
        js "      " ++ descriptionElement;
        js "      " ++ contentElement item;
        (if truthy_opt owner
         then js "      <category>" ++ escapeXml (nullish owner [])
              ++ js "</category>"
         else []);
        (if truthy_opt repo
         then js "      <category>" ++ escapeXml (nullish repo [])
              ++ js "</category>"
         else []);
        js "      <source url=" ++ dquote ++ escapeXml repoUrl ++ dquote
          ++ js ">" ++ escapeXml (repoSlug item) ++ js "</source>";
        js "    </item>" ]).

(* ================================================================== *)
(** * The clock *)
(* ================================================================== *)

(** A computation that reads the clock: the state is the number of readings
    taken so far in the run, and [clock n] is the time value that the
    reading number [n] returns. *)
Definition Clocked (A : Type) : Type := nat -> A * nat.

Definition ret {A} (a : A) : Clocked A := fun n => (a, n).

Definition bind {A B} (c : Clocked A) (f : A -> Clocked B) : Clocked B :=
  fun n => let (a, n') := c n in f a n'.

Notation "x <- c ;; k" := (bind c (fun x => k))
  (at level 61, c at next level, right associativity).

(** [new Date()] *)
Definition now (clock : nat -> Z) : Clocked Z := fun n => (clock n, S n).

(** [xs.map(f)] for a callback that reads the clock and may throw: the
    first call that throws ends the map. *)
Fixpoint mapC {A B} (f : A -> Clocked (result B)) (xs : list A)
    : Clocked (result (list B)) :=
  match xs with
  | [] => ret (Ok [])
  | x :: xs' =>
      r <- f x ;;
      match r with
      | Err e => ret (Err e)
      | Ok y =>
          rs <- mapC f xs' ;;
          match rs with
          | Err e => ret (Err e)
          | Ok ys => ret (Ok (y :: ys))
          end
      end
  end.

Section Serialiser.

(** [Date.parse], whose result on strings outside the ECMAScript date-time
    format is left to the implementation: [None] is NaN. *)
Variable Date_parse : jsstring -> Date.

(** The readings of the clock during the run. *)
Variable clock : nat -> Z.

Definition formatRssDate (isoDate : option jsstring) : Clocked jsstring :=
  if truthy_opt isoDate then
    ret (toUTCString (Date_parse (nullish isoDate [])))
  else
    t <- now clock ;; ret (toUTCString (Some t)).

(** [new Date(publishedAt ?? 0).getTime()] *)
Definition getTime (publishedAt_ : option jsstring) : Date :=
  match publishedAt_ with
  | Some p => Date_parse p
  | None => Some 0%Z
  end.

(** The comparison function handed to [sort]; a NaN operand makes the
    difference NaN. What [sort] looks at is the sign, which the rounding
    of the difference to a double keeps. *)
Definition compareFn (a b : FeedItem) : jsnumber :=
  match getTime (publishedAt b), getTime (publishedAt a) with
  | Some tb, Some ta => JNum (tb - ta)
  | _, _ => JNaN
  end.

(** The callback of the [map] of [buildRssFeed]. The entries of its array
    are evaluated in order and the line of the link comes before the line
    of the date: for an item without [htmlUrl], [escapeXml] throws before
    [formatRssDate] is called. *)
Definition renderItem (item : FeedItem) : Clocked (result jsstring) :=
  match htmlUrl item with
  | None => ret (Err undefinedReplace)
  | Some link =>
      pubDate <- formatRssDate (publishedAt item) ;;
      ret (Ok (itemText item link pubDate))
  end.

End Serialiser.

(* ================================================================== *)
(** * Sorting *)
(* ================================================================== *)

(** [Array.prototype.sort] with a comparison function is a stable sort
    (ECMAScript 2019, Node.js 11 and later). SortCompare reads a NaN result
    of the comparison function as +0. For a comparison function that is not
    consistent the standard leaves the order to the implementation; the
    model then gives what an insertion from the right gives. *)
Definition sortCompare {A} (cmp : A -> A -> jsnumber) (x y : A) : Z :=
  match cmp x y with
  | JNum z => z
  | JNaN => 0%Z
  | JInf => 1%Z
  end.

Fixpoint insert {A} (cmp : A -> A -> jsnumber) (x : A) (l : list A) : list A :=
  match l with
  | [] => [x]
  | y :: l' =>
      if (sortCompare cmp x y <=? 0)%Z then x :: y :: l'
      else y :: insert cmp x l'
  end.

Definition sort {A} (cmp : A -> A -> jsnumber) (l : list A) : list A :=
  fold_right (insert cmp) [] l.

(* ================================================================== *)
(** * The feed document *)
(* ================================================================== *)

Section Feed.

Variable Date_parse : jsstring -> Date.
Variable clock : nat -> Z.

(** The [lastBuildDate] element: the clock, through [toISOString] and
    [formatRssDate]. *)
Definition lastBuildDate : Clocked jsstring :=
  t <- now clock ;;
  date <- formatRssDate Date_parse clock (Some (toISOString t)) ;;
  ret (js "    <lastBuildDate>" ++ escapeXml date ++ js "</lastBuildDate>").

(** The lines of the document before and after the build date. *)
Definition channelHead : list jsstring :=
  let feedUrl := buildFeedUrl SITE_LINK in
  [ js "<?xml version=" ++ dquote ++ js "1.0" ++ dquote ++ js " encoding="
      ++ dquote ++ js "UTF-8" ++ dquote ++ js "?>";
    js "<rss version=" ++ dquote ++ js "2.0" ++ dquote;
    js "  xmlns:atom=" ++ dquote ++ js "http://www.w3.org/2005/Atom" ++ dquote;
    js "  xmlns:content=" ++ dquote
      ++ js "http://purl.org/rss/1.0/modules/content/" ++ dquote ++ js ">";
    js "  <channel>";
    js "    <title>" ++ escapeXml SITE_TITLE ++ js "</title>";
    js "    <link>" ++ escapeXml SITE_LINK ++ js "</link>";
    js "    <atom:link href=" ++ dquote ++ escapeXml feedUrl ++ dquote
      ++ js " rel=" ++ dquote ++ js "self" ++ dquote ++ js " type="
      ++ dquote ++ js "application/rss+xml" ++ dquote ++ js " />";
    js "    <description>" ++ escapeXml SITE_DESCRIPTION ++ js "</description>";
    js "    <language>" ++ escapeXml SITE_LANGUAGE ++ js "</language>";
    js "    <docs>https://www.rssboard.org/rss-specification</docs>";
    js "    <generator>" ++ escapeXml SITE_GENERATOR ++ js "</generator>" ].

Definition channelTail (feedItems : jsstring) : list jsstring :=
  [ js "    <ttl>" ++ decimal SITE_TTL ++ js "</ttl>";
    feedItems;
    js "  </channel>";
    js "</rss>";
    [] ].

(** The items in the order of the document: [items.sort(...)]. *)
Definition sortedItems (items : list FeedItem) : list FeedItem :=
  sort (compareFn Date_parse) items.

Definition buildRssFeed (items : list FeedItem)
    : Clocked (result jsstring) :=
  mapped <- mapC (renderItem Date_parse clock) (sortedItems items) ;;
  match mapped with
  | Err e => ret (Err e)
  | Ok rendered =>
      let feedItems := join [] rendered in
      built <- lastBuildDate ;;
      ret (Ok (join newline (channelHead ++ [built] ++ channelTail feedItems)))
  end.

End Feed.

(* ================================================================== *)
(** * The run: [main] and the handler of its rejection *)
(* ================================================================== *)

(** What the run finds outside the program. *)
Record World := {
  CONFIG_FILE : jsstring;
  OUTPUT_FILE : jsstring;
  (** [repos.json]: reading or [JSON.parse] throws, the value has no
      [repositories] array, or it has one *)
  config_file : result (option (list ConfigEntry));
  GITHUB_TOKEN : option jsstring;
  fetch : Request -> Response;
  Date_parse : jsstring -> Date;
  marked_parse : jsstring -> jsstring;
  clock : nat -> Z;
  (** [mkdir] and [writeFile]: the message of the error, if one fails *)
  write_error : option jsstring
}.

Inductive Stream := Log | Warn | Error.

(** What the run leaves behind. *)
Record Outcome := {
  written : option jsstring;
  console : list (Stream * jsstring);
  exitCode : Z
}.

Definition loadRepoList (w : World) : result (list ConfigEntry) :=
  let failed message :=
    Err (js "Failed to read repository config from " ++ CONFIG_FILE w
         ++ js ": " ++ message) in
  match config_file w with
  | Err message => failed message
  | Ok None =>
      failed (js "Config must contain a " ++ dquote ++ js "repositories"
              ++ dquote ++ js " array.")
  | Ok (Some entries) => Ok entries
  end.

(** The loop of [main] over the repositories: the items and the error lines
    collected so far, then one more repository. *)
Definition processRepo (w : World) (acc : list FeedItem * list jsstring)
    (repo : NormalizedRepoConfig) : list FeedItem * list jsstring :=
  let (results, errors) := acc in
  match fetchReleasesForRepo (marked_parse w) (GITHUB_TOKEN w) (fetch w) repo with
  | Ok releases => (results ++ releases, errors)
  | Err message =>
      (results, errors ++ [js "- " ++ slug repo ++ js ": " ++ message])
  end.

Definition processRepos (w : World) (repositories : list NormalizedRepoConfig)
    : list FeedItem * list jsstring :=
  fold_left (processRepo w) repositories ([], []).

(** What [main] did when its promise settles: the content written, the
    console lines, and the error if the promise is rejected. *)
Record Settled := {
  feed_written : option jsstring;
  printed : list (Stream * jsstring);
  rejected : option jsstring
}.

Definition reject (out : list (Stream * jsstring)) (e : jsstring) : Settled :=
  {| feed_written := None; printed := out; rejected := Some e |}.

Definition main (w : World) : Settled :=
  match loadRepoList w with
  | Err e => reject [] e
  | Ok rawEntries =>
      match parseConfigEntries rawEntries with
      | Err e => reject [] e
      | Ok repositories =>
          let (results, errors) := processRepos w repositories in
          let out1 :=
            if List.length results =? 0
            then [(Warn, js "No major/minor releases found with current configuration.")]
            else [] in
          match fst (buildRssFeed (Date_parse w) (clock w) results 0) with
          | Err e => reject out1 e
          | Ok feed =>
              match write_error w with
              | Some e => reject out1 e
              | None =>
                  let out2 :=
                    out1 ++ [(Log, js "RSS feed written to " ++ OUTPUT_FILE w)] in
                  let out3 :=
                    if 0 <? List.length errors
                    then out2 ++ [(Warn, js "Some repositories could not be processed:"
                                           ++ newline ++ join newline errors)]
                    else out2 in
                  {| feed_written := Some feed; printed := out3;
                     rejected := None |}
              end
          end
      end
  end.

(** The whole script: [main().catch(...)] prints the error and sets the exit
    code to 1; otherwise the process ends with code 0. *)
Definition run (w : World) : Outcome :=
  let r := main w in
  match rejected r with
  | None =>
      {| written := feed_written r; console := printed r; exitCode := 0 |}
  | Some e =>
      {| written := feed_written r;
         console := printed r ++ [(Error, e)];
         exitCode := 1 |}
  end.

(* ================================================================== *)
(** * Shapes of tags, for stating the properties of the classifier *)
(* ================================================================== *)

(** A non-empty string of digits. *)
Definition isNumeral (s : jsstring) : bool := truthy s && forallb isDigit s.

(** The integer that a numeral denotes. *)
Definition numeralValue (s : jsstring) : Z :=
  match decimal_value 0 s with Some z => z | None => 0%Z end.

(** The numeric portion of a tag: an optional [v], MAJOR, MINOR and an
    optional PATCH. *)
Record Version := {
  v_prefix : bool;
  v_major : jsstring;
  v_minor : jsstring;
  v_patch : option jsstring
}.

Definition versionText (ver : Version) : jsstring :=
  (if v_prefix ver then js "v" else [])
  ++ v_major ver ++ js "." ++ v_minor ver
  ++ match v_patch ver with Some p => js "." ++ p | None => [] end.

Definition wellFormedVersion (ver : Version) : bool :=
  isNumeral (v_major ver) && isNumeral (v_minor ver)
  && match v_patch ver with Some p => isNumeral p | None => true end.

(** MAJOR and MINOR are integers for [Number.isInteger]: their numerals
    are below the overflow threshold of a double. *)
Definition integersInRange (ver : Version) : bool :=
  Number_isInteger (Number (v_major ver))
  && Number_isInteger (Number (v_minor ver)).

(** PATCH is absent or denotes 0. *)
Definition patchIsZero (ver : Version) : bool :=
  match v_patch ver with
  | None => true
  | Some p => Z.eqb (numeralValue p) 0
  end.

(** A suffix in the sense of the pattern: [-] or [+], then code units that
    [.] matches. *)
Definition isSuffix (t : jsstring) : bool :=
  match t with
  | [] => false
  | c :: rest => (isChar c "-" || isChar c "+") && forallb isDot rest
  end.

(** What follows the numeric portion would be read as more of it: a digit,
    or a dot and a digit after a version without PATCH. *)
Definition continuesVersion (ver : Version) (t : jsstring) : bool :=
  match t with
  | [] => false
  | c :: rest =>
      isDigit c
      || (isChar c "."
          && match v_patch ver with Some _ => false | None => true end
          && match rest with d :: _ => isDigit d | [] => false end)
  end.

(** Nothing, or a suffix, follows the numeric portion. *)
Definition isOptionalSuffix (t : jsstring) : bool :=
  match t with [] => true | _ :: _ => isSuffix t end.

(* ================================================================== *)
(** * Notions used to state the properties of the pipeline *)
(* ================================================================== *)

(** Both filters of [fetchReleasesForRepo] at once. *)
Definition qualifies (release : GitHubRelease) : bool :=
  isPublished release && isMajorOrMinorRelease (tag_name release).

(** The entry with its [includePatchReleases] set to [b]. *)
Definition withIncludePatchReleases (b : option bool) (entry : RepoConfig)
    : RepoConfig :=
  {| entry_slug := entry_slug entry;
     entry_maxReleases := entry_maxReleases entry;
     entry_includePatchReleases := b |}.

(** The items of a list that belong to a repository. *)
Definition itemsOf (s : jsstring) (items : list FeedItem) : list FeedItem :=
  filter (fun item => jsstring_eqb (repoSlug item) s) items.

(** The time by which an item is sorted, when its date is valid. *)
Definition sortKey (Date_parse : jsstring -> Date) (item : FeedItem) : Z :=
  match getTime Date_parse (publishedAt item) with
  | Some t => t
  | None => 0%Z
  end.

(** Later keys first. *)
Definition descending {A} (key : A -> Z) : list A -> Prop :=
  StronglySorted (fun a b => (key b <= key a)%Z).

(** The items with a given sort key, in their order in the list. *)
Definition withKey (Date_parse : jsstring -> Date) (t : Z)
    (items : list FeedItem) : list FeedItem :=
  filter (fun item => Z.eqb (sortKey Date_parse item) t) items.

(** The call returned. *)
Definition isOk {A} (r : result A) : bool :=
  match r with Ok _ => true | Err _ => false end.

(** An item has its link. *)
Definition hasLink (item : FeedItem) : bool :=
  match htmlUrl item with Some _ => true | None => false end.

(** What [renderItem] gives for an item and the text of its date. *)
Definition textWith (item : FeedItem) (pubDate : jsstring) : result jsstring :=
  match htmlUrl item with
  | Some link => Ok (itemText item link pubDate)
  | None => Err undefinedReplace
  end.

(** What [renderItem] gives for an item whose [publishedAt] is present: its
    date is read from [publishedAt]. *)
Definition datedText (Date_parse : jsstring -> Date) (item : FeedItem)
    : result jsstring :=
  textWith item (toUTCString (Date_parse (nullish (publishedAt item) []))).

(** The results of a list of calls, up to the first that throws. *)
Fixpoint collect {A} (rs : list (result A)) : result (list A) :=
  match rs with
  | [] => Ok []
  | Err e :: _ => Err e
  | Ok a :: rs' =>
      match collect rs' with
      | Ok l => Ok (a :: l)
      | Err e => Err e
      end
  end.

(** The line of the build date for a reading [t] of the clock. *)
Definition buildDateLine (Date_parse : jsstring -> Date) (t : Z) : jsstring :=
  js "    <lastBuildDate>"
  ++ escapeXml (toUTCString (Date_parse (toISOString t)))
  ++ js "</lastBuildDate>".

(** What the loop of [main] collects, repository by repository. *)
Definition fetched (w : World) (repo : NormalizedRepoConfig)
    : result (list FeedItem) :=
  fetchReleasesForRepo (marked_parse w) (GITHUB_TOKEN w) (fetch w) repo.

Definition successes (w : World) (repositories : list NormalizedRepoConfig)
    : list FeedItem :=
  flat_map (fun repo =>
              match fetched w repo with Ok items => items | Err _ => [] end)
           repositories.

Definition errorLine (repo : NormalizedRepoConfig) (message : jsstring)
    : jsstring :=
  js "- " ++ slug repo ++ js ": " ++ message.

Definition failures (w : World) (repositories : list NormalizedRepoConfig)
    : list jsstring :=
  flat_map (fun repo =>
              match fetched w repo with
              | Ok _ => []
              | Err message => [errorLine repo message]
              end)
           repositories.

(* ================================================================== *)
(** * Reading CDATA back, as an XML parser does *)
(* ================================================================== *)

Fixpoint startsWith (p s : jsstring) : bool :=
  match p, s with
  | [], _ => true
  | a :: p', c :: s' => N.eqb c a && startsWith p' s'
  | _ :: _, [] => false
  end.

Definition cdataOpen : jsstring := js "<![CDATA[".
Definition cdataClose : jsstring := js "]]>".

(** From just after the opening of a CDATA section: the content of the
    section, which ends at the first [cdataClose], and what follows it. *)
Fixpoint cdataBody (s : jsstring) : option (jsstring * jsstring) :=
  match s with
  | [] => None
  | c :: s' =>
      if startsWith cdataClose s then Some ([], skipn 3 s)
      else
        match cdataBody s' with
        | Some (x, r) => Some (c :: x, r)
        | None => None
        end
  end.

(** The character data of a run of adjacent CDATA sections, and what
    follows the run. [fuel] bounds the number of sections. *)
Fixpoint cdataSections (fuel : nat) (s : jsstring)
    : option (jsstring * jsstring) :=
  match fuel with
  | O => None
  | S fuel' =>
      if startsWith cdataOpen s then
        match cdataBody (skipn 9 s) with
        | Some (x, r) =>
            match cdataSections fuel' r with
            | Some (y, r') => Some (x ++ y, r')
            | None => None
            end
        | None => None
        end
      else Some ([], s)
  end.


(** The [safeValue] of [wrapInCdata], with the length that [^] would look
    at left free. *)
Definition esc (len : nat) (s : jsstring) : jsstring :=
  replaceFrom cdataEnd len (js "]]]]><![CDATA[>") 0 s.

(** The character data of an element whose content is CDATA sections only;
    [None] when the text is not such an element. *)
Definition readCdataElement (tagName_ s : jsstring) : option jsstring :=
  let open := js "<" ++ tagName_ ++ js ">" in
  let close := js "</" ++ tagName_ ++ js ">" in
  if startsWith open s then
    match cdataSections (S (List.length s)) (skipn (List.length open) s) with
    | Some (x, r) => if jsstring_eqb r close then Some x else None
    | None => None
    end
  else None.

(* ================================================================== *)
(** * Data for the examples *)
(* ================================================================== *)

Local Open Scope Z_scope.

(** The day number of a date of the proleptic Gregorian calendar. *)
Definition days_from_civil (y mo d : Z) : Z :=
  let y' := if mo <=? 2 then y - 1 else y in
  let era := y' / 400 in
  let yoe := y' - era * 400 in
  let mp := if 2 <? mo then mo - 3 else mo + 9 in
  let doy := (153 * mp + 2) / 5 + d - 1 in
  let doe := yoe * 365 + yoe / 4 - yoe / 100 + doy in
  era * 146097 + doe - 719468.

Definition numeral (s : jsstring) : option Z :=
  if isNumeral s then decimal_value 0 s else None.

(** An instance of [Date.parse] for the examples: it reads the two forms
    [YYYY-MM-DDTHH:mm:ssZ] (what GitHub sends) and
    [YYYY-MM-DDTHH:mm:ss.sssZ] (what [toISOString] prints for the years 0 to
    9999), and nothing else. *)
Definition isoDateParse (s : jsstring) : Date :=
  let field i n := numeral (firstn n (skipn i s)) in
  let sep i a := match nth_error s i with
                 | Some c => isChar c a
                 | None => false
                 end in
  let millis :=
    if (List.length s =? 20)%nat && sep 19%nat "Z"%char then Some 0
    else if (List.length s =? 24)%nat && sep 19%nat "."%char && sep 23%nat "Z"%char
         then field 20%nat 3%nat
         else None in
  if sep 4%nat "-"%char && sep 7%nat "-"%char && sep 10%nat "T"%char && sep 13%nat ":"%char
     && sep 16%nat ":"%char
  then
    match field 0%nat 4%nat, field 5%nat 2%nat, field 8%nat 2%nat,
          field 11%nat 2%nat, field 14%nat 2%nat, field 17%nat 2%nat, millis with
    | Some y, Some mo, Some d, Some h, Some mi, Some sec, Some ms =>
        if (1 <=? mo) && (mo <=? 12) && (1 <=? d) && (d <=? 31)
           && (h <=? 23) && (mi <=? 59) && (sec <=? 59)
        then Some (days_from_civil y mo d * msPerDay
                   + h * 3600000 + mi * 60000 + sec * 1000 + ms)
        else None
    | _, _, _, _, _, _, _ => None
    end
  else None.

Local Close Scope Z_scope.

(** A release as GitHub lists it. *)
Definition release_of (repo tag published : string) (notes : option jsstring)
    : GitHubRelease :=
  {| release_id := 1;
     html_url := Some (js "https://github.com/" ++ js repo
                       ++ js "/releases/tag/" ++ js tag);
     tag_name := Some (js tag);
     release_name := None;
     body := notes;
     draft := false;
     prerelease := false;
     published_at := Some (js published);
     created_at := Some (js published) |}.

(** The entry of the README with the option set. *)
Definition react_entry : RepoConfig :=
  {| entry_slug := js "facebook/react";
     entry_maxReleases := Some 5%Z;
     entry_includePatchReleases := Some true |}.

Definition react_releases : list GitHubRelease :=
  [ release_of "facebook/react" "v19.0.0" "2024-12-05T18:10:00Z" None;
    release_of "facebook/react" "v18.3.0" "2024-04-25T17:00:00Z" None;
    release_of "facebook/react" "v18.2.0" "2022-06-14T19:50:00Z" None;
    release_of "facebook/react" "v18.1.0" "2022-04-26T20:40:00Z" None;
    release_of "facebook/react" "v18.0.0" "2022-03-29T16:00:00Z" None ].

Definition node_releases : list GitHubRelease :=
  [ release_of "nodejs/node" "v22.0.0" "2024-04-24T12:00:00Z" None;
    release_of "nodejs/node" "v21.7.0" "2024-03-06T12:00:00Z" None;
    release_of "nodejs/node" "v21.6.0" "2024-01-15T12:00:00Z" None;
    release_of "nodejs/node" "v21.5.0" "2023-12-19T12:00:00Z" None;
    release_of "nodejs/node" "v21.4.0" "2023-12-05T12:00:00Z" None ].

(** A run over three entries: the responses for two repositories are lists
    of releases, the request for the third answers 404. *)
Definition example_world : World :=
  {| CONFIG_FILE := js "/app/repos.json";
     OUTPUT_FILE := js "/app/docs/feed.xml";
     config_file :=
       Ok (Some [ EntryObject {| entry_slug := js "facebook/react";
                                 entry_maxReleases := Some 2%Z;
                                 entry_includePatchReleases := None |};
                  EntryObject {| entry_slug := js "nodejs/node";
                                 entry_maxReleases := Some 2%Z;
                                 entry_includePatchReleases := None |};
                  EntrySlug (js "ghost/missing") ]);
     GITHUB_TOKEN := None;
     fetch := fun request =>
       if jsstring_eqb (url_text request)
            (js "https://api.github.com/repos/facebook/react/releases")
       then Releases react_releases
       else if jsstring_eqb (url_text request)
                 (js "https://api.github.com/repos/nodejs/node/releases")
            then Releases node_releases
            else HttpError 404 (js "Not Found");
     Date_parse := isoDateParse;
     marked_parse := fun markdown => js "<p>" ++ markdown ++ js "</p>";
     clock := fun n => (1700000000000 + Z.of_nat n)%Z;
     write_error := None |}.

Definition react_config : NormalizedRepoConfig :=
  {| slug := js "facebook/react"; maxReleases := 2 |}.

Definition node_config : NormalizedRepoConfig :=
  {| slug := js "nodejs/node"; maxReleases := 2 |}.

Definition missing_config : NormalizedRepoConfig :=
  {| slug := js "ghost/missing"; maxReleases := 10 |}.



(** An item without a date. *)
Definition undated_item : FeedItem :=
  {| repoSlug := js "nodejs/node";
     htmlUrl := Some (js "https://github.com/nodejs/node/releases/tag/v0.1.0");
     tagName := js "v0.1.0";
     publishedAt := None;
     descriptionHtml := [];
     item_id := js "https://github.com/nodejs/node/releases/tag/v0.1.0";
     item_name := js "nodejs/node v0.1.0" |}.

(** An item like [item], published at [date]. *)
Definition dated (item : FeedItem) (date : string) : FeedItem :=
  {| repoSlug := repoSlug item;
     htmlUrl := htmlUrl item;
     tagName := tagName item;
     publishedAt := Some (js date);
     descriptionHtml := descriptionHtml item;
     item_id := item_id item;
     item_name := item_name item |}.

(** The description element as the first copy of [buildRssFeed] in the file
    wrote it, before [wrapInCdata] existed: the description between the
    delimiters, as it is. *)
Definition firstCopyDescription (description : jsstring) : jsstring :=
  js "<description><![CDATA[" ++ description ++ js "]]></description>".

(* ================================================================== *)
(** * Notions used to state further properties of the code *)
(* ================================================================== *)

(** What [escapeXml] makes of one code unit. *)
Definition escapeChar (c : char16) : jsstring :=
  if isChar c "&" then js "&amp;"
  else if isChar c "<" then js "&lt;"
  else if isChar c ">" then js "&gt;"
  else if N.eqb c 34 then js "&quot;"
  else if isChar c "'" then js "&apos;"
  else [c].

(** Reading the five entities back, as an XML parser does with character
    data; [skip] counts the code units of the entity that is being read. *)
Fixpoint unescapeFrom (skip : nat) (s : jsstring) : jsstring :=
  match s with
  | [] => []
  | c :: s' =>
      match skip with
      | S n => unescapeFrom n s'
      | O =>
          if startsWith (js "&amp;") s then 38%N :: unescapeFrom 4 s'
          else if startsWith (js "&lt;") s then 60%N :: unescapeFrom 3 s'
          else if startsWith (js "&gt;") s then 62%N :: unescapeFrom 3 s'
          else if startsWith (js "&quot;") s then 34%N :: unescapeFrom 5 s'
          else if startsWith (js "&apos;") s then 39%N :: unescapeFrom 5 s'
          else c :: unescapeFrom 0 s'
      end
  end.

Definition unescapeXml (s : jsstring) : jsstring := unescapeFrom 0 s.

(** [p] occurs somewhere in [s]. *)
Fixpoint occurs (p s : jsstring) : bool :=
  startsWith p s
  || match s with
     | [] => false
     | _ :: s' => occurs p s'
     end.

(** A code unit that is no white space, or is the plain space. *)
Definition plainSpace (c : char16) : Prop := isSpace c = true -> c = 32%N.

(** The entry is a string or an object with a string [slug]. *)
Definition validEntry (entry : ConfigEntry) : bool :=
  match entry with EntryOther _ => false | _ => true end.

(** No slash in the string. *)
Definition slashFree (s : jsstring) : bool :=
  forallb (fun c => negb (N.eqb c 47)) s.

(** The world of the examples with an output directory that cannot be
    written. *)
Definition unwritable_world : World :=
  {| CONFIG_FILE := CONFIG_FILE example_world;
     OUTPUT_FILE := OUTPUT_FILE example_world;
     config_file := config_file example_world;
     GITHUB_TOKEN := GITHUB_TOKEN example_world;
     fetch := fetch example_world;
     Date_parse := Date_parse example_world;
     marked_parse := marked_parse example_world;
     clock := clock example_world;
     write_error := Some (js "EACCES: permission denied, mkdir '/app/docs'") |}.

(** The number of items whose [publishedAt] is missing or empty. *)
Definition undatedCount (items : list FeedItem) : nat :=
  List.length
    (filter (fun item => negb (truthy_opt (publishedAt item))) items).

(** The first warning of [main]. *)
Definition noReleasesWarning : Stream * jsstring :=
  (Warn, js "No major/minor releases found with current configuration.").

(** The world of the examples without a network. *)
Definition offline_world : World :=
  {| CONFIG_FILE := CONFIG_FILE example_world;
     OUTPUT_FILE := OUTPUT_FILE example_world;
     config_file := config_file example_world;
     GITHUB_TOKEN := GITHUB_TOKEN example_world;
     fetch := fun _ => NetworkError (js "fetch failed");
     Date_parse := Date_parse example_world;
     marked_parse := marked_parse example_world;
     clock := clock example_world;
     write_error := None |}.

(* ================================================================== *)
(* ================================================================== *)
(** * Properties *)
(* ================================================================== *)
(* ================================================================== *)

(* ================================================================== *)
(** * Strings *)
(* ================================================================== *)

Lemma jsstring_eqb_eq (a b : jsstring) : jsstring_eqb a b = true <-> a = b.
Proof.
  revert b; induction a as [|x a IH]; intros [|y b]; simpl; split;
    try congruence; try reflexivity.
  - rewrite andb_true_iff, N.eqb_eq, IH. intros [-> ->]; reflexivity.
  - intros H; injection H as -> ->. now rewrite N.eqb_refl, (proj2 (IH b)).
Qed.

Lemma firstn_consumed {A} (x s1 : list A) :
  firstn (List.length (x ++ s1) - List.length s1) (x ++ s1) = x.
Proof.
  rewrite length_app, Nat.add_sub. 
  rewrite firstn_app, Nat.sub_diag, firstn_all. simpl. apply app_nil_r.
Qed.

(* ================================================================== *)
(** * The matcher finds exactly the matches of the relation *)
(* ================================================================== *)

Section MatcherFacts.

Variable len : nat.

Lemma starGreedy_sound p s g (k : cont) res :
  starGreedy p s g k = Some res ->
  exists x s1, s = x ++ s1 /\ Forall (fun c => p c = true) x
               /\ k s1 g = Some res.
Proof.
  induction s as [|c s IH]; simpl; intros H.
  - exists [], []. auto.
  - destruct (p c) eqn:Hp.
    + destruct (starGreedy p s g k) eqn:Hs.
      * injection H as <-. destruct (IH eq_refl) as (x & s1 & -> & Hx & Hk).
        exists (c :: x), s1. auto.
      * exists [], (c :: s). auto.
    + exists [], (c :: s). auto.
Qed.

Lemma starLazy_sound p s g (k : cont) res :
  starLazy p s g k = Some res ->
  exists x s1, s = x ++ s1 /\ Forall (fun c => p c = true) x
               /\ k s1 g = Some res.
Proof.
  induction s as [|c s IH]; simpl; intros H.
  - destruct (k [] g) eqn:Hk; [|discriminate].
    exists [], []. injection H as <-. auto.
  - destruct (k (c :: s) g) eqn:Hk.
    + injection H as <-. exists [], (c :: s). auto.
    + destruct (p c) eqn:Hp; [|discriminate].
      destruct (IH H) as (x & s1 & -> & Hx & Hk1).
      exists (c :: x), s1. auto.
Qed.

Lemma m_sound r : forall s g (k : cont) res,
  m len r s g k = Some res ->
  exists s1 g1, Matches len r s g s1 g1 /\ k s1 g1 = Some res.
Proof.
  induction r as [|p|a IHa b IHb|a IHa|p|p|n a IHa| |]; simpl; intros s g k res H.
  - exists s, g. split; [constructor|assumption].
  - destruct s as [|c s]; [discriminate|].
    destruct (p c) eqn:Hp; [|discriminate].
    exists s, g. split; [now constructor|assumption].
  - apply IHa in H. destruct H as (s1 & g1 & Ha & H).
    apply IHb in H. destruct H as (s2 & g2 & Hb & H).
    exists s2, g2. split; [econstructor; eassumption|assumption].
  - destruct (m len a s g _) eqn:Ha.
    + injection H as ->. apply IHa in Ha. destruct Ha as (s1 & g1 & Ha & H).
      destruct (List.length s1 <? List.length s) eqn:Hlt; [|discriminate].
      apply Nat.ltb_lt in Hlt.
      exists s1, g1. split; [now apply M_opt_in|assumption].
    + exists s, g. split; [apply M_opt_out|assumption].
  - apply starGreedy_sound in H. destruct H as (x & s1 & -> & Hx & H).
    exists s1, g. split; [now constructor|assumption].
  - apply starLazy_sound in H. destruct H as (x & s1 & -> & Hx & H).
    exists s1, g. split; [now constructor|assumption].
  - apply IHa in H. destruct H as (s1 & g1 & Ha & H).
    eexists _, _. split; [apply M_group; eassumption|assumption].
  - destruct (List.length s =? len) eqn:Hl; [|discriminate].
    apply Nat.eqb_eq in Hl.
    exists s, g. split; [now constructor|assumption].
  - destruct s; [|discriminate].
    exists [], g. split; [constructor|assumption].
Qed.

Lemma starGreedy_here p s g (k : cont) :
  k s g <> None -> starGreedy p s g k <> None.
Proof.
  intros Hk. destruct s as [|c s]; simpl; [assumption|].
  destruct (p c); [|assumption].
  destruct (starGreedy p s g k); [discriminate|assumption].
Qed.

Lemma starGreedy_complete p x s1 g (k : cont) :
  Forall (fun c => p c = true) x -> k s1 g <> None ->
  starGreedy p (x ++ s1) g k <> None.
Proof.
  intros Hx Hk. induction Hx as [|c x Hc Hx IH]; simpl.
  - now apply starGreedy_here.
  - rewrite Hc. destruct (starGreedy p (x ++ s1) g k); [discriminate|].
    now elim IH.
Qed.

Lemma starLazy_complete p x s1 g (k : cont) :
  Forall (fun c => p c = true) x -> k s1 g <> None ->
  starLazy p (x ++ s1) g k <> None.
Proof.
  intros Hx Hk. induction Hx as [|c x Hc Hx IH]; simpl.
  - destruct s1; simpl; destruct (k _ g); try discriminate; now elim Hk.
  - destruct (k (c :: x ++ s1) g); [discriminate|]. now rewrite Hc.
Qed.

Lemma m_complete r s g s1 g1 :
  Matches len r s g s1 g1 ->
  forall k : cont, k s1 g1 <> None -> m len r s g k <> None.
Proof.
  induction 1 as [s g|p c s g Hp|a b s g s1 g1 s2 g2 Ha IHa Hb IHb
                 |a s g s1 g1 Ha IHa Hlt|a s g|p x s g Hx|p x s g Hx
                 |n a s g s1 g1 Ha IHa|s g Hl|g]; intros k Hk; simpl.
  - assumption.
  - now rewrite Hp.
  - apply IHa. now apply IHb.
  - destruct (m len a s g _) eqn:E; [discriminate|].
    exfalso. revert E. apply IHa.
    apply Nat.ltb_lt in Hlt. now rewrite Hlt.
  - destruct (m len a s g _); [discriminate|assumption].
  - now apply starGreedy_complete.
  - now apply starLazy_complete.
  - now apply IHa.
  - apply Nat.eqb_eq in Hl. now rewrite Hl.
  - assumption.
Qed.

End MatcherFacts.

(* ================================================================== *)
(** * What the pattern of the classifier matches *)
(* ================================================================== *)

Definition headNot (p : char16 -> bool) (s : jsstring) : Prop :=
  match s with [] => True | c :: _ => p c = false end.

Lemma forallb_Forall (p : char16 -> bool) (x : jsstring) :
  forallb p x = true <-> Forall (fun c => p c = true) x.
Proof.
  induction x as [|c x IH]; simpl.
  - split; auto.
  - rewrite andb_true_iff, IH. split.
    + intros [? ?]; now constructor.
    + inversion 1; auto.
Qed.

Lemma span_unique (p : char16 -> bool) (x x' y y' : jsstring) :
  Forall (fun c => p c = true) x -> Forall (fun c => p c = true) x' ->
  headNot p y -> headNot p y' ->
  x ++ y = x' ++ y' -> x = x' /\ y = y'.
Proof.
  intros Hx; revert x'. induction Hx as [|c x Hc Hx IH]; intros x' Hx' Hy Hy' E.
  - destruct Hx' as [|c' x' Hc' _]; [auto|].
    simpl in E. subst y. simpl in Hy. congruence.
  - destruct Hx' as [|c' x' Hc' Hx'].
    + simpl in E. subst y'. simpl in Hy'. congruence.
    + simpl in E. injection E as <- E.
      destruct (IH x' Hx' Hy Hy' E) as [-> ->]. auto.
Qed.

Lemma isNumeral_spec (s : jsstring) :
  isNumeral s = true <-> s <> [] /\ Forall (fun c => isDigit c = true) s.
Proof.
  unfold isNumeral. rewrite andb_true_iff, forallb_Forall.
  destruct s; simpl; split; intros [H1 H2]; split; auto; congruence.
Qed.

Section Inversion.

Variable len : nat.

Lemma Matches_cls_inv p s g s1 g1 :
  Matches len (Cls p) s g s1 g1 ->
  exists c, p c = true /\ s = c :: s1 /\ g1 = g.
Proof. inversion 1; subst. eauto. Qed.

Lemma Matches_seq_inv a b s g s2 g2 :
  Matches len (Seq a b) s g s2 g2 ->
  exists s1 g1, Matches len a s g s1 g1 /\ Matches len b s1 g1 s2 g2.
Proof. inversion 1; subst. eauto. Qed.

Lemma Matches_opt_inv a s g s1 g1 :
  Matches len (Opt a) s g s1 g1 ->
  Matches len a s g s1 g1 \/ (s1 = s /\ g1 = g).
Proof. inversion 1; subst; auto. Qed.

Lemma Matches_starG_inv p s g s1 g1 :
  Matches len (StarG p) s g s1 g1 ->
  exists x, Forall (fun c => p c = true) x /\ s = x ++ s1 /\ g1 = g.
Proof. inversion 1; subst. eauto. Qed.

Lemma Matches_group_inv n a s g s1 g1 :
  Matches len (Group n a) s g s1 g1 ->
  exists g0, Matches len a s g s1 g0
             /\ g1 = (n, firstn (List.length s - List.length s1) s) :: g0.
Proof. inversion 1; subst. eauto. Qed.

Lemma Matches_bos_inv s g s1 g1 :
  Matches len Bos s g s1 g1 -> s1 = s /\ g1 = g.
Proof. inversion 1; subst. auto. Qed.

Lemma Matches_eos_inv s g s1 g1 :
  Matches len Eos s g s1 g1 -> s = [] /\ s1 = [] /\ g1 = g.
Proof. inversion 1; subst. auto. Qed.

Lemma Matches_plus_inv p s g s1 g1 :
  Matches len (PlusG p) s g s1 g1 ->
  exists x, x <> [] /\ Forall (fun c => p c = true) x
            /\ s = x ++ s1 /\ g1 = g.
Proof.
  unfold PlusG. intros H.
  apply Matches_seq_inv in H. destruct H as (s0 & g0 & Ha & Hb).
  apply Matches_cls_inv in Ha. destruct Ha as (c & Hc & -> & ->).
  apply Matches_starG_inv in Hb. destruct Hb as (x & Hx & -> & ->).
  exists (c :: x). repeat split; auto. discriminate.
Qed.

Lemma Matches_group_plus_inv n p s g s1 g1 :
  Matches len (Group n (PlusG p)) s g s1 g1 ->
  exists x, x <> [] /\ Forall (fun c => p c = true) x
            /\ s = x ++ s1 /\ g1 = (n, x) :: g.
Proof.
  intros H. apply Matches_group_inv in H. destruct H as (g0 & Ha & ->).
  apply Matches_plus_inv in Ha. destruct Ha as (x & Hne & Hx & -> & ->).
  exists x. rewrite firstn_consumed. auto.
Qed.

Lemma Matches_plus_intro p x s1 g :
  x <> [] -> Forall (fun c => p c = true) x ->
  Matches len (PlusG p) (x ++ s1) g s1 g.
Proof.
  intros Hne Hx. destruct Hx as [|c x Hc Hx]; [congruence|].
  unfold PlusG. simpl. eapply M_seq; [now apply M_cls|now apply M_starG].
Qed.

Lemma Matches_group_plus_intro n p x s1 g :
  x <> [] -> Forall (fun c => p c = true) x ->
  Matches len (Group n (PlusG p)) (x ++ s1) g s1 ((n, x) :: g).
Proof.
  intros Hne Hx.
  pose proof (M_group n (@Matches_plus_intro p x s1 g Hne Hx)) as H.
  now rewrite firstn_consumed in H.
Qed.

End Inversion.

(** With [^] in front, only the start of the input can match. *)
Lemma execFrom_bos_short r len s :
  List.length s < len -> execFrom (Seq Bos r) len s = None.
Proof.
  induction s as [|c s IH]; intros Hl; cbn [execFrom m].
  - destruct (Nat.eqb_spec (List.length (@nil char16)) len) as [E|_];
      [simpl in *; lia|reflexivity].
  - destruct (Nat.eqb_spec (List.length (c :: s)) len) as [E|_]; [lia|].
    apply IH. simpl in Hl. lia.
Qed.

Lemma exec_bos r input :
  exec (Seq Bos r) input
  = m (List.length input) (Seq Bos r) input [] (fun s1 g1 => Some (s1, g1)).
Proof.
  unfold exec. destruct input as [|c s].
  - simpl. now destruct (m 0 r [] [] _).
  - cbn [execFrom].
    destruct (m (List.length (c :: s)) (Seq Bos r) (c :: s) [] _); [reflexivity|].
    apply execFrom_bos_short. simpl. lia.
Qed.

Lemma isChar_eq c a : isChar c a = true -> c = N_of_ascii a.
Proof. apply N.eqb_eq. Qed.

Lemma semver_prefix_inv len tag g s1 g1 :
  Matches len (Opt (Cls (fun c => isChar c "v"))) tag g s1 g1 ->
  exists v : bool, tag = (if v then js "v" else []) ++ s1 /\ g1 = g.
Proof.
  intros H. apply Matches_opt_inv in H. destruct H as [H|[-> ->]].
  - apply Matches_cls_inv in H. destruct H as (c & Hc & -> & ->).
    apply isChar_eq in Hc. subst c. now exists true.
  - now exists false.
Qed.

Lemma semver_patch_inv len s g s1 g1 :
  Matches len
    (Opt (Seq (Cls (fun c => isChar c ".")) (Group "patch" (PlusG isDigit))))
    s g s1 g1 ->
  exists patch : option jsstring,
    s = match patch with Some p => js "." ++ p | None => [] end ++ s1
    /\ match patch with Some p => isNumeral p = true | None => True end
    /\ g1 = match patch with Some p => [("patch"%string, p)] | None => [] end ++ g.
Proof.
  intros H. apply Matches_opt_inv in H. destruct H as [H|[-> ->]].
  - apply Matches_seq_inv in H. destruct H as (t & g0 & Hd & H).
    apply Matches_cls_inv in Hd. destruct Hd as (c & Hc & -> & ->).
    apply isChar_eq in Hc. subst c.
    apply Matches_group_plus_inv in H. destruct H as (p & Hp0 & Hp & -> & ->).
    exists (Some p). repeat split. now apply isNumeral_spec.
  - now exists None.
Qed.

Lemma semver_suffix_inv len s g s1 g1 :
  Matches len
    (Opt (Group "suffix"
            (Seq (Cls (fun c => isChar c "-" || isChar c "+")) (StarG isDot))))
    s g s1 g1 ->
  exists sfx, s = sfx ++ s1 /\ (sfx = [] \/ isSuffix sfx = true)
              /\ (g1 = g \/ exists x, g1 = ("suffix"%string, x) :: g).
Proof.
  intros H. apply Matches_opt_inv in H. destruct H as [H|[-> ->]].
  - apply Matches_group_inv in H. destruct H as (g0 & H & ->).
    apply Matches_seq_inv in H. destruct H as (t & g2 & Hc & H).
    apply Matches_cls_inv in Hc. destruct Hc as (c & Hc & -> & ->).
    apply Matches_starG_inv in H. destruct H as (x & Hx & -> & ->).
    exists (c :: x). repeat split; eauto.
    right. simpl. rewrite Hc. now apply forallb_Forall.
  - exists []. auto.
Qed.

Lemma semver_match_inv tag s1 g :
  exec semverRegex tag = Some (s1, g) ->
  exists ver sfx,
    wellFormedVersion ver = true /\ (sfx = [] \/ isSuffix sfx = true)
    /\ tag = versionText ver ++ sfx
    /\ group "major" g = Some (v_major ver)
    /\ group "minor" g = Some (v_minor ver)
    /\ group "patch" g = v_patch ver.
Proof.
  unfold semverRegex. rewrite exec_bos. intros H.
  apply m_sound in H. destruct H as (s2 & g2 & H & E). injection E as -> ->.
  apply Matches_seq_inv in H. destruct H as (t0 & g0 & H0 & H).
  apply Matches_bos_inv in H0. destruct H0 as [-> ->].
  apply Matches_seq_inv in H. destruct H as (t1 & g1 & Hv & H).
  apply semver_prefix_inv in Hv. destruct Hv as (v & -> & ->).
  apply Matches_seq_inv in H. destruct H as (t2 & g2 & Hmaj & H).
  apply Matches_group_plus_inv in Hmaj. destruct Hmaj as (ma & Hma0 & Hma & -> & ->).
  apply Matches_seq_inv in H. destruct H as (t3 & g3 & Hdot & H).
  apply Matches_cls_inv in Hdot. destruct Hdot as (c & Hc & -> & ->).
  apply isChar_eq in Hc. subst c.
  apply Matches_seq_inv in H. destruct H as (t4 & g4 & Hmin & H).
  apply Matches_group_plus_inv in Hmin. destruct Hmin as (mi & Hmi0 & Hmi & -> & ->).
  apply Matches_seq_inv in H. destruct H as (t5 & g5 & Hpat & H).
  apply semver_patch_inv in Hpat. destruct Hpat as (patch & -> & Hp & ->).
  apply Matches_seq_inv in H. destruct H as (t6 & g6 & Hsfx & H).
  apply Matches_eos_inv in H. destruct H as (-> & -> & ->).
  apply semver_suffix_inv in Hsfx. destruct Hsfx as (sfx & -> & Hs & Hg).
  exists {| v_prefix := v; v_major := ma; v_minor := mi; v_patch := patch |}, sfx.
  unfold wellFormedVersion, versionText; cbn [v_prefix v_major v_minor v_patch].
  rewrite (proj2 (isNumeral_spec ma)), (proj2 (isNumeral_spec mi)) by auto.
  split; [destruct patch; simpl; auto|].
  split; [assumption|].
  split.
  { rewrite app_nil_r, <- !app_assoc. reflexivity. }
  destruct Hg as [->|[x ->]]; destruct patch; simpl; auto.
Qed.

Lemma semver_suffix_intro len sfx g :
  sfx = [] \/ isSuffix sfx = true ->
  exists g1,
    Matches len
      (Opt (Group "suffix"
              (Seq (Cls (fun c => isChar c "-" || isChar c "+")) (StarG isDot))))
      sfx g [] g1.
Proof.
  intros [->|H].
  - eexists. apply M_opt_out.
  - destruct sfx as [|c x]; [discriminate|]. simpl in H.
    apply andb_true_iff in H. destruct H as [Hc Hx].
    apply forallb_Forall in Hx.
    eexists. apply M_opt_in; [|simpl; lia].
    apply M_group. eapply M_seq; [now apply M_cls|].
    pose proof (@M_starG len isDot x [] g Hx) as HS.
    rewrite app_nil_r in HS. exact HS.
Qed.

Lemma semver_patch_intro len patch s1 g :
  match patch with Some p => isNumeral p = true | None => True end ->
  exists g1,
    Matches len
      (Opt (Seq (Cls (fun c => isChar c ".")) (Group "patch" (PlusG isDigit))))
      (match patch with Some p => js "." ++ p | None => [] end ++ s1) g s1 g1.
Proof.
  destruct patch as [p|]; intros Hp.
  - apply isNumeral_spec in Hp. destruct Hp as [Hp0 Hp].
    eexists. apply M_opt_in.
    + eapply M_seq; [now apply M_cls|].
      now apply Matches_group_plus_intro.
    + rewrite !length_app. simpl. lia.
  - eexists. apply M_opt_out.
Qed.

Lemma semver_match_some ver sfx :
  wellFormedVersion ver = true -> (sfx = [] \/ isSuffix sfx = true) ->
  exec semverRegex (versionText ver ++ sfx) <> None.
Proof.
  intros Hwf Hs. unfold semverRegex. rewrite exec_bos.
  destruct ver as [v ma mi patch]. unfold wellFormedVersion in Hwf.
  cbn [v_prefix v_major v_minor v_patch] in Hwf.
  apply andb_true_iff in Hwf. destruct Hwf as [Hwf Hp].
  apply andb_true_iff in Hwf. destruct Hwf as [Hma Hmi].
  apply isNumeral_spec in Hma. destruct Hma as [Hma0 Hma].
  apply isNumeral_spec in Hmi. destruct Hmi as [Hmi0 Hmi].
  set (tag := versionText _ ++ sfx).
  assert (Etag : tag = (if v then js "v" else [])
                       ++ ma ++ chr "." :: mi
                       ++ (match patch with Some p => js "." ++ p | None => [] end
                           ++ sfx)).
  { unfold tag, versionText. cbn [v_prefix v_major v_minor v_patch].
    rewrite <- !app_assoc. reflexivity. }
  set (len := List.length tag).
  destruct (@semver_patch_intro len patch sfx
              [("minor"%string, mi); ("major"%string, ma)]) as (g5 & H5).
  { destruct patch; auto. }
  destruct (@semver_suffix_intro len sfx g5 Hs) as (g6 & H6).
  assert (HM : Matches len
    (Seq Bos
      (Seq (Opt (Cls (fun c => isChar c "v")))
      (Seq (Group "major" (PlusG isDigit))
      (Seq (Cls (fun c => isChar c "."))
      (Seq (Group "minor" (PlusG isDigit))
      (Seq (Opt (Seq (Cls (fun c => isChar c ".")) (Group "patch" (PlusG isDigit))))
      (Seq (Opt (Group "suffix"
             (Seq (Cls (fun c => isChar c "-" || isChar c "+")) (StarG isDot))))
           Eos))))))) tag [] [] g6).
  { eapply M_seq; [now apply M_bos|].
    rewrite Etag.
    eapply M_seq.
    { instantiate (1 := []).
      instantiate (1 := ma ++ chr "." :: mi
        ++ (match patch with Some p => js "." ++ p | None => [] end ++ sfx)).
      destruct v.
      - apply M_opt_in; [now apply M_cls|simpl; lia].
      - apply M_opt_out. }
    eapply M_seq; [now apply Matches_group_plus_intro|].
    eapply M_seq; [now apply M_cls|].
    eapply M_seq; [now apply Matches_group_plus_intro|].
    eapply M_seq; [exact H5|].
    eapply M_seq; [exact H6|]. apply M_eos. }
  apply (m_complete HM). discriminate.
Qed.

Lemma continuesVersion_head ver t :
  continuesVersion ver t = false -> headNot isDigit t.
Proof.
  destruct t as [|c t]; simpl; [auto|].
  intros H. now apply orb_false_iff in H.
Qed.

Lemma numeral_head p rest :
  isNumeral p = true ->
  exists d tl, p ++ rest = d :: tl /\ isDigit d = true.
Proof.
  intros H. apply isNumeral_spec in H. destruct H as [H0 H].
  destruct H as [|d p Hd _]; [congruence|]. simpl. eauto.
Qed.

Lemma continuesVersion_dot ver p rest :
  v_patch ver = None -> isNumeral p = true ->
  continuesVersion ver (js "." ++ p ++ rest) = true.
Proof.
  intros Hn Hp. destruct (numeral_head p rest Hp) as (d & tl & E & Hd).
  cbn [js list_ascii_of_string map app]. rewrite E.
  cbn [continuesVersion]. rewrite Hn, Hd.
  reflexivity.
Qed.

(** Two readings of one string as a numeric portion and a tail that does
    not continue it are the same reading. *)
Lemma version_align ver ver' t t' :
  wellFormedVersion ver = true -> wellFormedVersion ver' = true ->
  continuesVersion ver t = false -> continuesVersion ver' t' = false ->
  versionText ver ++ t = versionText ver' ++ t' ->
  ver = ver' /\ t = t'.
Proof.
  intros Hwf Hwf' Ht Ht' E.
  pose proof (continuesVersion_head _ _ Ht) as Hh.
  pose proof (continuesVersion_head _ _ Ht') as Hh'.
  destruct ver as [v ma mi patch], ver' as [v' ma' mi' patch'].
  unfold wellFormedVersion in Hwf, Hwf'. unfold versionText in E.
  cbn [v_prefix v_major v_minor v_patch] in *.
  apply andb_true_iff in Hwf. destruct Hwf as [Hwf Hp].
  apply andb_true_iff in Hwf. destruct Hwf as [Hma Hmi].
  apply andb_true_iff in Hwf'. destruct Hwf' as [Hwf' Hp'].
  apply andb_true_iff in Hwf'. destruct Hwf' as [Hma' Hmi'].
  rewrite <- !app_assoc in E.
  assert (Ev : v = v' /\
     ma ++ js "." ++ mi ++ match patch with Some p => js "." ++ p | None => [] end ++ t
     = ma' ++ js "." ++ mi' ++ match patch' with Some p => js "." ++ p | None => [] end ++ t').
  { destruct (numeral_head ma
      (js "." ++ mi ++ match patch with Some p => js "." ++ p | None => [] end ++ t) Hma)
      as (d & tl & Ed & Hd).
    destruct (numeral_head ma'
      (js "." ++ mi' ++ match patch' with Some p => js "." ++ p | None => [] end ++ t') Hma')
      as (d' & tl' & Ed' & Hd').
    rewrite Ed, Ed' in E. rewrite Ed, Ed'.
    destruct v, v'; simpl in E.
    - injection E as -> ->. auto.
    - injection E as <- _. discriminate.
    - injection E as -> _. discriminate.
    - auto. }
  destruct Ev as [<- E1]. clear E.
  apply isNumeral_spec in Hma, Hma', Hmi, Hmi'.
  destruct Hma as [_ Hma], Hma' as [_ Hma'], Hmi as [_ Hmi], Hmi' as [_ Hmi'].
  apply span_unique with (p := isDigit) in E1; auto; try reflexivity.
  destruct E1 as [<- E2]. injection E2 as E2.
  apply span_unique with (p := isDigit) in E2; auto;
    try (destruct patch; simpl; auto; fail);
    try (destruct patch'; simpl; auto; fail).
  destruct E2 as [<- E3].
  destruct patch as [p|], patch' as [p'|]; simpl in E3.
  - injection E3 as E3.
    apply isNumeral_spec in Hp, Hp'. destruct Hp as [_ Hp], Hp' as [_ Hp'].
    apply span_unique with (p := isDigit) in E3; auto.
    destruct E3 as [<- <-]. auto.
  - exfalso. subst t'.
    pose proof (@continuesVersion_dot (Build_Version v ma mi None) p t
                  eq_refl Hp) as C.
    exact (eq_true_false_abs _ C Ht').
  - exfalso. subst t.
    pose proof (@continuesVersion_dot (Build_Version v ma mi None) p' t'
                  eq_refl Hp') as C.
    exact (eq_true_false_abs _ C Ht).
  - subst. auto.
Qed.

Lemma isSuffix_not_continuation ver sfx :
  sfx = [] \/ isSuffix sfx = true -> continuesVersion ver sfx = false.
Proof.
  intros [->|H]; [reflexivity|].
  destruct sfx as [|c x]; [discriminate|]. simpl in *.
  apply andb_true_iff in H. destruct H as [H _].
  apply orb_true_iff in H.
  destruct H as [H|H]; apply isChar_eq in H; subst c; reflexivity.
Qed.

Lemma decimal_value_digits s : forall acc,
  Forall (fun c => isDigit c = true) s ->
  exists z, decimal_value acc s = Some z.
Proof.
  induction s as [|c s IH]; intros acc H; simpl.
  - eauto.
  - inversion H as [|? ? Hc Hs]; subst. rewrite Hc. now apply IH.
Qed.

(** The patch test of the classifier on the capture of [\d+]: integer and
    zero, which is to denote 0. *)
Lemma patch_number p :
  isNumeral p = true ->
  (if negb (Number_isInteger (Number p)) then false else is_zero (Number p))
  = Z.eqb (numeralValue p) 0.
Proof.
  intros H. apply isNumeral_spec in H. destruct H as [_ H].
  destruct (decimal_value_digits 0 H) as (z & Ez).
  unfold Number, numeralValue. rewrite Ez.
  destruct (Z.ltb_spec z double_overflow) as [Hlt|Hge]; simpl.
  - reflexivity.
  - symmetry. apply Z.eqb_neq. intros ->.
    revert Hge. unfold double_overflow. apply Z.lt_nge.
    apply Z.lt_0_sub. apply Z.pow_lt_mono_r; lia.
Qed.

Lemma isOptionalSuffix_spec t :
  isOptionalSuffix t = true <-> (t = [] \/ isSuffix t = true).
Proof.
  destruct t as [|c t]; cbn [isOptionalSuffix].
  - split; auto.
  - split; [auto|]. intros [H|H]; [discriminate|assumption].
Qed.

(** The classifier on a numeric portion followed by anything that does not
    continue it: the tail must be empty or a suffix, MAJOR and MINOR must be
    integers for [Number.isInteger], and PATCH must be absent or 0. *)
Lemma classify_version ver t :
  wellFormedVersion ver = true -> continuesVersion ver t = false ->
  isMajorOrMinorRelease (Some (versionText ver ++ t))
  = isOptionalSuffix t && integersInRange ver && patchIsZero ver.
Proof.
  intros Hwf Ht. unfold isMajorOrMinorRelease.
  assert (Hne : truthy (versionText ver ++ t) = true).
  { pose proof Hwf as H. unfold wellFormedVersion in H.
    apply andb_true_iff in H. destruct H as [H _].
    apply andb_true_iff in H. destruct H as [H _].
    destruct (numeral_head (v_major ver)
      (js "." ++ v_minor ver
       ++ match v_patch ver with Some p => js "." ++ p | None => [] end) H)
      as (d & tl & E & _).
    unfold versionText. rewrite E. now destruct (v_prefix ver). }
  rewrite Hne. cbn [negb].
  destruct (exec semverRegex (versionText ver ++ t)) as [[s1 g]|] eqn:Ex.
  - apply semver_match_inv in Ex.
    destruct Ex as (ver' & sfx & Hwf' & Hs & E & Gma & Gmi & Gpa).
    apply version_align in E; auto using isSuffix_not_continuation.
    destruct E as [<- <-].
    rewrite Gma, Gmi, Gpa.
    rewrite (proj2 (isOptionalSuffix_spec t) Hs).
    unfold integersInRange, patchIsZero, patchNumberOf.
    cbn [Number_opt forallb andb].
    unfold wellFormedVersion in Hwf.
    apply andb_true_iff in Hwf. destruct Hwf as [_ Hp].
    destruct (Number_isInteger (Number (v_major ver))); cbn [negb andb];
      [|reflexivity].
    destruct (Number_isInteger (Number (v_minor ver))); cbn [negb andb];
      [|reflexivity].
    destruct (v_patch ver) as [p|]; cbn [truthy_opt].
    + assert (Htp : truthy p = true).
      { unfold isNumeral in Hp. now apply andb_true_iff in Hp. }
      rewrite Htp. cbn [Number_opt]. rewrite andb_true_r.
      now apply patch_number.
    + reflexivity.
  - destruct (isOptionalSuffix t) eqn:Hs; [|reflexivity].
    apply isOptionalSuffix_spec in Hs.
    now elim (semver_match_some ver Hwf Hs).
Qed.

(** The groups that the pattern captures on a numeric portion followed by
    nothing or by a suffix. *)
Lemma semver_groups ver sfx :
  wellFormedVersion ver = true -> isOptionalSuffix sfx = true ->
  exists rest groups,
    exec semverRegex (versionText ver ++ sfx) = Some (rest, groups)
    /\ group "major" groups = Some (v_major ver)
    /\ group "minor" groups = Some (v_minor ver)
    /\ group "patch" groups = v_patch ver.
Proof.
  intros Hwf Hs. apply isOptionalSuffix_spec in Hs.
  destruct (exec semverRegex (versionText ver ++ sfx)) as [[s1 g]|] eqn:Ex.
  - pose proof Ex as Ex'. apply semver_match_inv in Ex'.
    destruct Ex' as (ver' & sfx' & Hwf' & Hs' & E & Gma & Gmi & Gpa).
    apply version_align in E; auto using isSuffix_not_continuation.
    destruct E as [<- <-]. eauto 6.
  - now elim (semver_match_some ver Hwf Hs).
Qed.

(* ================================================================== *)
(** * The classifier on tags *)
(* ================================================================== *)

Lemma classify_numeric ver :
  wellFormedVersion ver = true ->
  isMajorOrMinorRelease (Some (versionText ver))
  = integersInRange ver && patchIsZero ver.
Proof.
  intros Hwf. pose proof (@classify_version ver [] Hwf eq_refl) as H.
  now rewrite app_nil_r in H.
Qed.

(** C1 (amended). For every tag [vMAJOR.MINOR] or [vMAJOR.MINOR.PATCH] (the
    [v] optional) without suffix, whose MAJOR and MINOR are integers for
    [Number.isInteger], the classifier includes the release exactly when
    PATCH is absent or 0 and excludes it exactly when PATCH is not 0,
    whatever [includePatchReleases] the entry of the target carries:
    [parseConfigEntry] builds the same target for every value of the
    option, and the classifier sees the tag only. *)
Theorem patch_policy_is_fixed (entry : RepoConfig) (b : option bool)
    (ver : Version) :
  wellFormedVersion ver = true ->
  integersInRange ver = true ->
  parseConfigEntry (EntryObject (withIncludePatchReleases b entry))
  = parseConfigEntry (EntryObject entry)
  /\ isMajorOrMinorRelease (Some (versionText ver)) = patchIsZero ver.
Proof.
  intros Hwf Hr. split; [reflexivity|].
  now rewrite classify_numeric, Hr.
Qed.

Lemma patch_policy_is_fixed_witness :
  let ver := {| v_prefix := true; v_major := js "18"; v_minor := js "3";
                v_patch := Some (js "1") |} in
  parseConfigEntry (EntryObject (withIncludePatchReleases (Some true) react_entry))
  = parseConfigEntry (EntryObject react_entry)
  /\ isMajorOrMinorRelease (Some (versionText ver)) = patchIsZero ver.
Proof.
  intros ver. apply (@patch_policy_is_fixed react_entry (Some true) ver);
    reflexivity.
Defined.

(** C1, as stated, fails: with [includePatchReleases] set to true on the
    entry, the release [v18.3.1] of the repository is still left out. *)
Lemma include_patch_releases_ignored :
  entry_includePatchReleases react_entry = Some true
  /\ exists cfg,
       parseConfigEntry (EntryObject react_entry) = Ok cfg
       /\ fetchReleasesForRepo (fun md => md) None
            (fun _ => Releases
                        [release_of "facebook/react" "v18.3.1"
                           "2024-04-26T16:50:11Z" None]) cfg
          = Ok [].
Proof.
  split; [reflexivity|]. eexists. split; [reflexivity|]. vm_compute. reflexivity.
Qed.

(** C2. A tag made of a numeric portion and a tail that is not more of the
    version is classified by the patch rule on the numeric portion, as the
    numeric portion alone is, when the tail is empty or a suffix for the
    pattern (one of [-] and [+], then what [.] matches): MAJOR and MINOR
    integers for [Number.isInteger] and PATCH absent or 0. Any other tail
    excludes the release: the match is anchored at both ends. *)
Theorem suffix_keeps_classification (ver : Version) (t : jsstring) :
  wellFormedVersion ver = true ->
  continuesVersion ver t = false ->
  isMajorOrMinorRelease (Some (versionText ver))
  = integersInRange ver && patchIsZero ver
  /\ isMajorOrMinorRelease (Some (versionText ver ++ t))
     = isOptionalSuffix t && (integersInRange ver && patchIsZero ver).
Proof.
  intros Hwf Ht. split.
  - now apply classify_numeric.
  - rewrite classify_version by assumption. now rewrite andb_assoc.
Qed.

Lemma suffix_keeps_classification_witness :
  let ver := {| v_prefix := false; v_major := js "1"; v_minor := js "2";
                v_patch := Some (js "0") |} in
  let patched := {| v_prefix := true; v_major := js "1"; v_minor := js "2";
                    v_patch := Some (js "3") |} in
  isMajorOrMinorRelease (Some (versionText ver ++ js "-beta.1")) = true
  /\ isMajorOrMinorRelease (Some (versionText patched ++ js "+build.5")) = false
  /\ isMajorOrMinorRelease (Some (versionText ver ++ js "beta")) = false.
Proof.
  intros ver patched.
  split; [|split].
  - exact (proj2 (suffix_keeps_classification ver (js "-beta.1")
                    eq_refl eq_refl)).
  - exact (proj2 (suffix_keeps_classification patched (js "+build.5")
                    eq_refl eq_refl)).
  - exact (proj2 (suffix_keeps_classification ver (js "beta")
                    eq_refl eq_refl)).
Defined.

(** C3 (amended). A suffix does not disqualify: a release whose tag parses
    as a semantic version with a suffix, MAJOR and MINOR being integers for
    [Number.isInteger], passes the two filters exactly when it is neither a
    draft nor flagged as a prerelease and its PATCH is absent or 0. *)
Theorem suffix_does_not_disqualify (release : GitHubRelease) (ver : Version)
    (sfx : jsstring) :
  wellFormedVersion ver = true ->
  integersInRange ver = true ->
  isSuffix sfx = true ->
  tag_name release = Some (versionText ver ++ sfx) ->
  qualifies release = isPublished release && patchIsZero ver.
Proof.
  intros Hwf Hr Hs Ht. unfold qualifies. rewrite Ht.
  rewrite classify_version; auto.
  - rewrite Hr. replace (isOptionalSuffix sfx) with true; [reflexivity|].
    symmetry. apply isOptionalSuffix_spec. now right.
  - apply isSuffix_not_continuation. now right.
Qed.

Lemma suffix_does_not_disqualify_witness :
  qualifies (release_of "facebook/react" "v1.2.0-rc.1" "2024-04-26T16:50:11Z" None)
  = isPublished (release_of "facebook/react" "v1.2.0-rc.1" "2024-04-26T16:50:11Z" None)
    && patchIsZero {| v_prefix := true; v_major := js "1"; v_minor := js "2";
                      v_patch := Some (js "0") |}.
Proof.
  apply (@suffix_does_not_disqualify (release_of "facebook/react" "v1.2.0-rc.1" "2024-04-26T16:50:11Z" None)
           {| v_prefix := true; v_major := js "1"; v_minor := js "2";
              v_patch := Some (js "0") |} (js "-rc.1")); reflexivity.
Defined.

(** C3, as stated, fails: [v1.2.0-rc.1] has a suffix and is classified as a
    major or minor release; a release with this tag that is not flagged as
    a draft or a prerelease passes both filters. *)
Lemma suffixed_tag_is_included :
  isMajorOrMinorRelease (Some (js "v1.2.0-rc.1")) = true
  /\ qualifies (release_of "facebook/react" "v1.2.0-rc.1" "2024-04-26T16:50:11Z" None) = true.
Proof. split; reflexivity. Qed.

(** C9. A tag MAJOR.MINOR, with or without [v] in front, whose MAJOR and
    MINOR are integers for [Number.isInteger], matches the pattern with the
    group [patch] undefined; the patch number is then 0 and the classifier
    includes the release. *)
Theorem missing_patch_defaults_to_zero (v : bool) (major minor : jsstring) :
  isNumeral major = true -> isNumeral minor = true ->
  Number_isInteger (Number major) = true ->
  Number_isInteger (Number minor) = true ->
  let tag := (if v then js "v" else []) ++ major ++ js "." ++ minor in
  (exists rest groups,
      exec semverRegex tag = Some (rest, groups)
      /\ group "major" groups = Some major
      /\ group "minor" groups = Some minor
      /\ group "patch" groups = None
      /\ patchNumberOf (group "patch" groups) = JNum 0)
  /\ isMajorOrMinorRelease (Some tag) = true.
Proof.
  intros Hma Hmi Rma Rmi tag.
  set (ver := {| v_prefix := v; v_major := major; v_minor := minor;
                 v_patch := None |}).
  assert (Hwf : wellFormedVersion ver = true).
  { unfold wellFormedVersion, ver; simpl. now rewrite Hma, Hmi. }
  assert (Etag : tag = versionText ver ++ []).
  { unfold tag, versionText, ver; simpl. now rewrite !app_nil_r. }
  split.
  - destruct (@semver_groups ver [] Hwf eq_refl)
      as (rest & groups & Ex & Gma & Gmi & Gpa).
    exists rest, groups. rewrite Etag. repeat split; auto.
    simpl in Gpa. now rewrite Gpa.
  - rewrite Etag, classify_version; auto.
    unfold integersInRange, ver; simpl. now rewrite Rma, Rmi.
Qed.

Lemma missing_patch_defaults_to_zero_witness :
  let tag := js "v" ++ js "1" ++ js "." ++ js "2" in
  (exists rest groups,
      exec semverRegex tag = Some (rest, groups)
      /\ group "major" groups = Some (js "1")
      /\ group "minor" groups = Some (js "2")
      /\ group "patch" groups = None
      /\ patchNumberOf (group "patch" groups) = JNum 0)
  /\ isMajorOrMinorRelease (Some tag) = true.
Proof.
  apply (@missing_patch_defaults_to_zero true (js "1") (js "2")); reflexivity.
Defined.

(** ** At the edges of the pattern and of [Number] *)

(** [.] stops at a line terminator: a tail that starts like a suffix and
    holds one is not a suffix for the pattern, and the tag does not match. *)
Example line_terminator_after_hyphen :
  isSuffix (js "-rc" ++ [8232%N] ++ js "1") = false
  /\ isMajorOrMinorRelease (Some (js "1.2.0-rc" ++ [8232%N] ++ js "1")) = false.
Proof. split; reflexivity. Qed.

(** A numeral of four hundred digits reads as Infinity, which is not an
    integer for [Number.isInteger]: the release is left out whatever its
    patch. *)
Example overflowing_major :
  Number (repeat 57%N 400) = JInf
  /\ isMajorOrMinorRelease (Some (repeat 57%N 400 ++ js ".0.0")) = false.
Proof. split; vm_compute; reflexivity. Qed.

(** The match is anchored at the start as well. *)
Example text_before_version :
  isMajorOrMinorRelease (Some (js "release-1.2.0")) = false.
Proof. reflexivity. Qed.

(* ================================================================== *)
(** * Sorting *)
(* ================================================================== *)

Section SortFacts.

Variable A : Type.
Variable cmp : A -> A -> jsnumber.

Lemma insert_perm x l : Permutation (x :: l) (insert cmp x l).
Proof.
  induction l as [|y l IH]; simpl; [reflexivity|].
  destruct (sortCompare cmp x y <=? 0)%Z; [reflexivity|].
  rewrite perm_swap. now constructor.
Qed.

Lemma sort_perm l : Permutation l (sort cmp l).
Proof.
  induction l as [|x l IH]; simpl; [constructor|].
  rewrite <- insert_perm. now constructor.
Qed.

Lemma sort_length l : List.length (sort cmp l) = List.length l.
Proof. symmetry. apply Permutation_length, sort_perm. Qed.

(** When the comparison is the difference of an integer key, later items
    first. *)
Variable key : A -> Z.
Variable dom : A -> Prop.
Hypothesis cmp_key :
  forall x y, dom x -> dom y -> sortCompare cmp x y = (key y - key x)%Z.

Lemma insert_descending x l :
  dom x -> Forall dom l -> descending key l -> descending key (insert cmp x l).
Proof.
  intros Hx Hl Hs. induction Hs as [|y l Hs IH Hy]; simpl.
  - constructor; constructor.
  - inversion Hl as [|? ? Dy Dl]; subst.
    rewrite (cmp_key Hx Dy).
    destruct (Z.leb_spec (key y - key x) 0) as [Hle|Hgt].
    + constructor; [now constructor|].
      constructor; [lia|].
      eapply Forall_impl; [|exact Hy]. simpl. intros; lia.
    + constructor; [now apply IH|].
      rewrite <- (insert_perm x l). constructor; [lia|assumption].
Qed.

Lemma sort_dom l : Forall dom l -> Forall dom (sort cmp l).
Proof.
  intros H. rewrite Forall_forall in *. intros x Hx. apply H.
  now apply (Permutation_in _ (Permutation_sym (sort_perm l))).
Qed.

Lemma sort_descending l : Forall dom l -> descending key (sort cmp l).
Proof.
  induction 1 as [|x l Hx Hl IH]; simpl; [constructor|].
  apply insert_descending; auto using sort_dom.
Qed.

(** Stability: among the items of one key, the order is the one of the
    input. *)
Lemma insert_stable t x l :
  dom x -> Forall dom l ->
  filter (fun a => Z.eqb (key a) t) (insert cmp x l)
  = filter (fun a => Z.eqb (key a) t) (x :: l).
Proof.
  intros Hx Hl. induction Hl as [|y l Dy Dl IH]; [reflexivity|].
  cbn [insert]. rewrite (cmp_key Hx Dy).
  destruct (Z.leb_spec (key y - key x) 0) as [Hle|Hgt]; [reflexivity|].
  cbn [filter] in *. rewrite IH.
  destruct (Z.eqb_spec (key x) t), (Z.eqb_spec (key y) t);
    try reflexivity. lia.
Qed.

Lemma sort_stable t l :
  Forall dom l ->
  filter (fun a => Z.eqb (key a) t) (sort cmp l)
  = filter (fun a => Z.eqb (key a) t) l.
Proof.
  induction 1 as [|x l Hx Hl IH]; [reflexivity|].
  cbn [sort fold_right]. fold (sort cmp l).
  rewrite insert_stable; auto using sort_dom.
  cbn [filter]. now rewrite IH.
Qed.

End SortFacts.

Lemma compareFn_key Date_parse (x y : FeedItem) :
  getTime Date_parse (publishedAt x) <> None ->
  getTime Date_parse (publishedAt y) <> None ->
  sortCompare (compareFn Date_parse) x y
  = (sortKey Date_parse y - sortKey Date_parse x)%Z.
Proof.
  unfold sortCompare, compareFn, sortKey. intros Hx Hy.
  destruct (getTime Date_parse (publishedAt y)); [|congruence].
  destruct (getTime Date_parse (publishedAt x)); [|congruence].
  reflexivity.
Qed.

Lemma descending_tail {A} (key : A -> Z) before x after :
  descending key (before ++ x :: after) ->
  Forall (fun later => (key later <= key x)%Z) after.
Proof.
  induction before as [|b before IH]; simpl; intros H.
  - now inversion H.
  - inversion H; subst. auto.
Qed.

Lemma descending_head {A} (key : A -> Z) before x after :
  descending key (before ++ x :: after) ->
  Forall (fun earlier => (key x <= key earlier)%Z) before.
Proof.
  induction before as [|b before IH]; simpl; intros H; [constructor|].
  inversion H as [|? ? Hs Hb]; subst. constructor; [|auto].
  rewrite Forall_forall in Hb. apply Hb, in_elt.
Qed.

(* ================================================================== *)
(** * Selecting the releases of a repository *)
(* ================================================================== *)

Lemma In_firstn {A} (x : A) n l : In x (firstn n l) -> In x l.
Proof.
  revert l; induction n as [|n IH]; intros [|y l]; simpl; auto.
  - intros [].
  - intros [H|H]; auto.
Qed.

Lemma In_slice0 {A} (x : A) n l : In x (slice0 n l) -> In x l.
Proof. apply In_firstn. Qed.

Lemma slice0_firstn {A} n (l : list A) :
  (0 <= n)%Z -> slice0 n l = firstn (Z.to_nat n) l.
Proof.
  intros Hn. unfold slice0.
  destruct (Z.ltb_spec n 0) as [?|_]; [lia|].
  destruct (Z.le_ge_cases n (Z.of_nat (List.length l))) as [Hle|Hge].
  - now rewrite Z.min_l.
  - rewrite Z.min_r, Nat2Z.id by assumption.
    rewrite firstn_all. symmetry. apply firstn_all2. lia.
Qed.

Lemma filter_filter {A} (f g : A -> bool) l :
  filter f (filter g l) = filter (fun x => g x && f x) l.
Proof.
  induction l as [|x l IH]; simpl; [reflexivity|].
  destruct (g x); simpl; [destruct (f x)|]; now rewrite IH.
Qed.

(** A negative [end] does not cap: it drops from the back. *)
Example slice0_negative : slice0 (-1) [1; 2; 3] = [1; 2].
Proof. reflexivity. Qed.

Lemma selectReleases_qualifies marked_parse cfg releases :
  selectReleases marked_parse cfg releases
  = map (normalize marked_parse (slug cfg))
      (slice0 (maxReleases cfg) (filter qualifies releases)).
Proof. unfold selectReleases. now rewrite filter_filter. Qed.

Lemma classified_tag_present tag :
  isMajorOrMinorRelease tag = true -> exists t, tag = Some t /\ t <> [].
Proof.
  destruct tag as [[|c t]|]; simpl; try discriminate.
  intros _. eexists. split; [reflexivity|discriminate].
Qed.

(** C10. Every item that [fetchReleasesForRepo] returns is the
    normalisation of a release of the response that passed both filters;
    the tag of that release is present and not empty, and it is the
    [tagName] of the item, which is therefore not the fallback text. *)
Theorem tag_fallback_never_taken (marked_parse : jsstring -> jsstring)
    (token : option jsstring) (fetch : Request -> Response)
    (cfg : NormalizedRepoConfig) (items : list FeedItem) (item : FeedItem) :
  fetchReleasesForRepo marked_parse token fetch cfg = Ok items ->
  In item items ->
  exists release tag,
    item = normalize marked_parse (slug cfg) release
    /\ isPublished release = true
    /\ isMajorOrMinorRelease (tag_name release) = true
    /\ tag_name release = Some tag
    /\ tag <> []
    /\ tagName item = tag
    /\ tagName item <> js "unknown".
Proof.
  unfold fetchReleasesForRepo. intros Hf Hin.
  destruct (requestFor token cfg) as [request|]; [|discriminate].
  destruct (fetch request) as [| | | |releases]; try discriminate.
  injection Hf as <-. unfold selectReleases in Hin.
  apply in_map_iff in Hin. destruct Hin as (release & <- & Hin).
  apply In_slice0 in Hin. apply filter_In in Hin. destruct Hin as [Hin Hc].
  apply filter_In in Hin. destruct Hin as [_ Hp].
  destruct (classified_tag_present _ Hc) as (tag & Et & Hne).
  exists release, tag. repeat split; auto.
  - simpl. now rewrite Et.
  - simpl. rewrite Et. simpl. intros ->. rewrite Et in Hc. discriminate.
Qed.

Lemma tag_fallback_never_taken_witness :
  let w := example_world in
  let items := selectReleases (marked_parse w) react_config react_releases in
  let item :=
    normalize (marked_parse w) (slug react_config)
      (release_of "facebook/react" "v19.0.0" "2024-12-05T18:10:00Z" None) in
  exists release tag,
    item = normalize (marked_parse w) (slug react_config) release
    /\ isPublished release = true
    /\ isMajorOrMinorRelease (tag_name release) = true
    /\ tag_name release = Some tag
    /\ tag <> []
    /\ tagName item = tag
    /\ tagName item <> js "unknown".
Proof.
  intros w items item.
  apply (@tag_fallback_never_taken (marked_parse w) (GITHUB_TOKEN w) (fetch w)
           react_config items item).
  - reflexivity.
  - vm_compute. left. reflexivity.
Defined.

(* ================================================================== *)
(** * The loop of [main] *)
(* ================================================================== *)

Lemma processRepo_fetched w results errors repo :
  processRepo w (results, errors) repo
  = match fetched w repo with
    | Ok items => (results ++ items, errors)
    | Err message => (results, errors ++ [errorLine repo message])
    end.
Proof. reflexivity. Qed.

Lemma processRepos_from w repositories : forall results errors,
  fold_left (processRepo w) repositories (results, errors)
  = (results ++ successes w repositories, errors ++ failures w repositories).
Proof.
  induction repositories as [|repo repos IH]; intros results errors.
  - simpl. now rewrite !app_nil_r.
  - cbn [fold_left]. rewrite processRepo_fetched.
    unfold successes, failures. cbn [flat_map].
    fold (successes w repos). fold (failures w repos).
    destruct (fetched w repo) as [items|message]; rewrite IH.
    + now rewrite app_assoc.
    + now rewrite <- app_assoc.
Qed.

Lemma processRepos_spec w repositories :
  processRepos w repositories
  = (successes w repositories, failures w repositories).
Proof. unfold processRepos. now rewrite processRepos_from. Qed.

Lemma Permutation_filter_length {A} (f : A -> bool) l l' :
  Permutation l l' ->
  List.length (filter f l) = List.length (filter f l').
Proof.
  induction 1 as [|x l l' _ IH|x y l|l l' l'' _ IH1 _ IH2]; simpl.
  - reflexivity.
  - destruct (f x); simpl; now rewrite IH.
  - destruct (f x), (f y); reflexivity.
  - now rewrite IH1.
Qed.

Lemma itemsOf_normalize marked_parse s sl releases :
  itemsOf s (map (normalize marked_parse sl) releases)
  = if jsstring_eqb sl s then map (normalize marked_parse sl) releases else [].
Proof.
  unfold itemsOf. induction releases as [|r l IH]; simpl.
  - now destruct (jsstring_eqb sl s).
  - rewrite IH. now destruct (jsstring_eqb sl s).
Qed.

Lemma fetched_releases w cfg request releases :
  requestFor (GITHUB_TOKEN w) cfg = Ok request ->
  fetch w request = Releases releases ->
  fetched w cfg = Ok (selectReleases (marked_parse w) cfg releases).
Proof.
  intros Hq Hf. unfold fetched, fetchReleasesForRepo. now rewrite Hq, Hf.
Qed.

Lemma filter_all {A} (f : A -> bool) l : forallb f l = true -> filter f l = l.
Proof.
  induction l as [|x l IH]; simpl; [reflexivity|].
  intros H. apply andb_true_iff in H. destruct H as [-> H]. now rewrite IH.
Qed.

(** C5. The cap of a repository keeps the first [maxReleases] qualifying
    releases of the response, in the order of the response, before the
    items of the repositories are put together. With two repositories of
    cap 2 whose responses hold five qualifying releases each, the feed has
    exactly four items: the first two of each response, and at most two of
    any one repository. *)
Theorem cap_per_repository :
  (forall marked_parse cfg releases,
      (0 <= maxReleases cfg)%Z ->
      selectReleases marked_parse cfg releases
      = map (normalize marked_parse (slug cfg))
          (firstn (Z.to_nat (maxReleases cfg)) (filter qualifies releases)))
  /\ (forall w c1 c2 q1 q2 rs1 rs2,
         maxReleases c1 = 2%Z -> maxReleases c2 = 2%Z ->
         requestFor (GITHUB_TOKEN w) c1 = Ok q1 -> fetch w q1 = Releases rs1 ->
         requestFor (GITHUB_TOKEN w) c2 = Ok q2 -> fetch w q2 = Releases rs2 ->
         forallb qualifies rs1 = true -> List.length rs1 = 5 ->
         forallb qualifies rs2 = true -> List.length rs2 = 5 ->
         let results := fst (processRepos w [c1; c2]) in
         let feed := sortedItems (Date_parse w) results in
         results
         = map (normalize (marked_parse w) (slug c1)) (firstn 2 rs1)
           ++ map (normalize (marked_parse w) (slug c2)) (firstn 2 rs2)
         /\ List.length feed = 4
         /\ (slug c1 <> slug c2 ->
             forall s, List.length (itemsOf s feed) <= 2)).
Proof.
  assert (General : forall marked_parse cfg releases,
      (0 <= maxReleases cfg)%Z ->
      selectReleases marked_parse cfg releases
      = map (normalize marked_parse (slug cfg))
          (firstn (Z.to_nat (maxReleases cfg)) (filter qualifies releases))).
  { intros mp cfg releases H.
    now rewrite selectReleases_qualifies, slice0_firstn. }
  split; [exact General|].
  intros w c1 c2 q1 q2 rs1 rs2 M1 M2 Q1 F1 Q2 F2 A1 L1 A2 L2 results feed.
  assert (E : results
    = map (normalize (marked_parse w) (slug c1)) (firstn 2 rs1)
      ++ map (normalize (marked_parse w) (slug c2)) (firstn 2 rs2)).
  { unfold results. rewrite processRepos_spec. unfold successes.
    cbn [fst flat_map].
    rewrite (fetched_releases w c1 Q1 F1), (fetched_releases w c2 Q2 F2).
    rewrite !General by lia. rewrite M1, M2, !filter_all by assumption.
    now rewrite app_nil_r. }
  assert (Len : forall (l : list GitHubRelease) sl,
             List.length l = 5 ->
             List.length (map (normalize (marked_parse w) sl) (firstn 2 l)) = 2).
  { intros l sl Hl. rewrite length_map, length_firstn. lia. }
  split; [exact E|]. split.
  - unfold feed, sortedItems. rewrite sort_length, E, length_app.
    now rewrite !Len.
  - intros Hneq s. unfold feed, sortedItems, itemsOf.
    rewrite <- (Permutation_filter_length _ (sort_perm _ results)).
    rewrite E, filter_app.
    fold (itemsOf s (map (normalize (marked_parse w) (slug c1)) (firstn 2 rs1))).
    fold (itemsOf s (map (normalize (marked_parse w) (slug c2)) (firstn 2 rs2))).
    rewrite !itemsOf_normalize, length_app.
    destruct (jsstring_eqb (slug c1) s) eqn:E1;
      destruct (jsstring_eqb (slug c2) s) eqn:E2;
      rewrite ?Len by assumption; simpl; try lia.
    apply jsstring_eqb_eq in E1, E2. congruence.
Qed.

Lemma cap_per_repository_witness :
  let w := example_world in
  let results := fst (processRepos w [react_config; node_config]) in
  let feed := sortedItems (Date_parse w) results in
  results
  = map (normalize (marked_parse w) (slug react_config)) (firstn 2 react_releases)
    ++ map (normalize (marked_parse w) (slug node_config)) (firstn 2 node_releases)
  /\ List.length feed = 4
  /\ List.length (itemsOf (js "facebook/react") feed) <= 2.
Proof.
  intros w results feed.
  destruct (proj2 cap_per_repository w react_config node_config
              {| url_text :=
                   js "https://api.github.com/repos/facebook/react/releases";
                 per_page := 4; authorization := None |}
              {| url_text :=
                   js "https://api.github.com/repos/nodejs/node/releases";
                 per_page := 4; authorization := None |}
              react_releases node_releases
              eq_refl eq_refl eq_refl eq_refl eq_refl eq_refl
              eq_refl eq_refl eq_refl eq_refl) as (E & L & P).
  split; [exact E|]. split; [exact L|].
  apply P. discriminate.
Defined.

(* ================================================================== *)
(** * Rendering the items: the clock and the links *)
(* ================================================================== *)

Lemma truthy_app_r (a b : jsstring) : truthy b = true -> truthy (a ++ b) = true.
Proof. destruct a, b; simpl; auto. Qed.

Lemma toISOString_truthy t : truthy (toISOString t) = true.
Proof.
  unfold toISOString. destruct (civil_from_days (t / msPerDay)) as [[y mo] dd].
  apply truthy_app_r. reflexivity.
Qed.

Lemma forallb_Permutation {A} (f : A -> bool) l l' :
  Permutation l l' -> forallb f l = forallb f l'.
Proof.
  induction 1 as [|x l l' _ IH|x y l|l l' l'' _ IH1 _ IH2]; simpl.
  - reflexivity.
  - now rewrite IH.
  - now destruct (f x), (f y).
  - now rewrite IH1.
Qed.

Section ClockFacts.

Variable Date_parse : jsstring -> Date.
Variable clock : nat -> Z.

Lemma formatRssDate_present isoDate n :
  truthy_opt isoDate = true ->
  formatRssDate Date_parse clock isoDate n
  = (toUTCString (Date_parse (nullish isoDate [])), n).
Proof. unfold formatRssDate. now intros ->. Qed.

Lemma formatRssDate_absent isoDate n :
  truthy_opt isoDate = false ->
  formatRssDate Date_parse clock isoDate n
  = (toUTCString (Some (clock n)), S n).
Proof. unfold formatRssDate. now intros ->. Qed.

Lemma lastBuildDate_reads_once n :
  lastBuildDate Date_parse clock n
  = (buildDateLine Date_parse (clock n), S n).
Proof.
  unfold lastBuildDate, bind, now.
  rewrite formatRssDate_present by apply toISOString_truthy.
  reflexivity.
Qed.

Lemma renderItem_dated item n :
  truthy_opt (publishedAt item) = true ->
  renderItem Date_parse clock item n = (datedText Date_parse item, n).
Proof.
  intros Hp. unfold renderItem, datedText, textWith.
  destruct (htmlUrl item) as [link|]; [|reflexivity].
  unfold bind. now rewrite formatRssDate_present.
Qed.

Lemma renderItem_undated item n :
  truthy_opt (publishedAt item) = false ->
  renderItem Date_parse clock item n
  = match htmlUrl item with
    | Some link =>
        (Ok (itemText item link (toUTCString (Some (clock n)))), S n)
    | None => (Err undefinedReplace, n)
    end.
Proof.
  intros Hp. unfold renderItem.
  destruct (htmlUrl item) as [link|]; [|reflexivity].
  unfold bind. now rewrite formatRssDate_absent.
Qed.

Lemma mapC_cons {A B} (f : A -> Clocked (result B)) x xs n :
  mapC f (x :: xs) n
  = match f x n with
    | (Err e, k) => (Err e, k)
    | (Ok y, k) =>
        match mapC f xs k with
        | (Err e, k') => (Err e, k')
        | (Ok ys, k') => (Ok (y :: ys), k')
        end
    end.
Proof.
  cbn [mapC]. unfold bind at 1. destruct (f x n) as [[y|e] k]; [|reflexivity].
  unfold bind. now destruct (mapC f xs k) as [[ys|e] k'].
Qed.

Lemma renderItems_dated items n :
  Forall (fun item => truthy_opt (publishedAt item) = true) items ->
  mapC (renderItem Date_parse clock) items n
  = (collect (map (datedText Date_parse) items), n).
Proof.
  induction 1 as [|item items Hi _ IH]; [reflexivity|].
  rewrite mapC_cons, renderItem_dated by assumption.
  cbn [map collect].
  destruct (datedText Date_parse item) as [text|e]; [|reflexivity].
  rewrite IH. now destruct (collect (map (datedText Date_parse) items)).
Qed.

(** The map over the items succeeds exactly when every item has its link;
    its texts are then those of the items, in their order, and the clock
    has been read once for each item without a date. *)
Lemma renderItems_ok items : forall n,
  isOk (fst (mapC (renderItem Date_parse clock) items n))
  = forallb hasLink items.
Proof.
  induction items as [|item items IH]; intros n; [reflexivity|].
  rewrite mapC_cons. cbn [forallb]. unfold renderItem at 1, hasLink at 1.
  destruct (htmlUrl item) as [link|]; [|reflexivity].
  unfold bind, ret.
  destruct (formatRssDate Date_parse clock (publishedAt item) n) as [d k].
  specialize (IH k).
  destruct (mapC (renderItem Date_parse clock) items k) as [[ys|e] k'];
    exact IH.
Qed.

Lemma renderItems_texts items : forall n texts k,
  mapC (renderItem Date_parse clock) items n = (Ok texts, k) ->
  Forall2 (fun item text => exists pubDate, textWith item pubDate = Ok text)
          items texts
  /\ k = (n + undatedCount items)%nat.
Proof.
  unfold undatedCount.
  induction items as [|item items IH]; intros n texts k.
  - cbn. intros H. injection H as <- <-. split; [constructor|lia].
  - rewrite mapC_cons. cbn [filter].
    destruct (truthy_opt (publishedAt item)) eqn:Hp; cbn [negb].
    + rewrite renderItem_dated by assumption.
      destruct (datedText Date_parse item) as [text|e] eqn:Et;
        [|discriminate].
      destruct (mapC (renderItem Date_parse clock) items n)
        as [[ys|e] k'] eqn:Em; [|discriminate].
      intros H. injection H as <- <-.
      destruct (IH _ _ _ Em) as [Hf Hk]. split; [|exact Hk].
      constructor; [|exact Hf]. eexists. exact Et.
    + rewrite renderItem_undated by assumption.
      destruct (htmlUrl item) as [link|] eqn:El; [|discriminate].
      destruct (mapC (renderItem Date_parse clock) items (S n))
        as [[ys|e] k'] eqn:Em; [|discriminate].
      intros H. injection H as <- <-.
      destruct (IH _ _ _ Em) as [Hf Hk]. split; [|cbn [List.length]; lia].
      constructor; [|exact Hf].
      exists (toUTCString (Some (clock n))). unfold textWith. now rewrite El.
Qed.

Lemma buildRssFeed_mapped items n :
  buildRssFeed Date_parse clock items n
  = match mapC (renderItem Date_parse clock)
            (sortedItems Date_parse items) n with
    | (Ok texts, k) =>
        (Ok (join newline
               (channelHead ++ [buildDateLine Date_parse (clock k)]
                ++ channelTail (join [] texts))),
         S k)
    | (Err e, k) => (Err e, k)
    end.
Proof.
  unfold buildRssFeed. unfold bind at 1.
  destruct (mapC (renderItem Date_parse clock)
              (sortedItems Date_parse items) n) as [[texts|e] k];
    [|reflexivity].
  unfold bind. now rewrite lastBuildDate_reads_once.
Qed.

Lemma buildRssFeed_ok items n :
  isOk (fst (buildRssFeed Date_parse clock items n))
  = forallb hasLink items.
Proof.
  rewrite buildRssFeed_mapped.
  rewrite (forallb_Permutation hasLink
             (sort_perm (compareFn Date_parse) items)).
  fold (sortedItems Date_parse items).
  rewrite <- (renderItems_ok (sortedItems Date_parse items) n).
  now destruct (mapC (renderItem Date_parse clock)
                  (sortedItems Date_parse items) n) as [[texts|e] k].
Qed.

Lemma undatedCount_sorted items :
  undatedCount (sortedItems Date_parse items) = undatedCount items.
Proof.
  unfold undatedCount, sortedItems. symmetry.
  apply Permutation_filter_length, sort_perm.
Qed.

End ClockFacts.

(* ================================================================== *)
(** * The run *)
(* ================================================================== *)



Lemma run_settled w entries repositories :
  config_file w = Ok (Some entries) ->
  parseConfigEntries entries = Ok repositories ->
  run w
  = let results := successes w repositories in
    let out1 :=
      if List.length results =? 0
      then [(Warn, js "No major/minor releases found with current configuration.")]
      else [] in
    match fst (buildRssFeed (Date_parse w) (clock w) results 0),
          write_error w with
    | Err e, _ | Ok _, Some e =>
        {| written := None; console := out1 ++ [(Error, e)]; exitCode := 1 |}
    | Ok feed, None =>
        {| written := Some feed;
           console :=
             out1 ++ [(Log, js "RSS feed written to " ++ OUTPUT_FILE w)]
             ++ (if 0 <? List.length (failures w repositories)
                 then [(Warn, js "Some repositories could not be processed:"
                              ++ newline
                              ++ join newline (failures w repositories))]
                 else []);
           exitCode := 0 |}
    end.
Proof.
  intros Hc Hp. unfold run, main, loadRepoList.
  rewrite Hc, Hp, processRepos_spec. cbv zeta.
  destruct (fst (buildRssFeed (Date_parse w) (clock w)
                   (successes w repositories) 0)) as [feed|e];
    [|reflexivity].
  destruct (write_error w) as [e|]; [reflexivity|].
  destruct (0 <? List.length (failures w repositories));
    cbn [rejected feed_written printed]; now rewrite <- ?app_assoc.
Qed.




(* ================================================================== *)
(** * What the document takes from the clock *)
(* ================================================================== *)

(** C7 (amended). For fixed items whose [publishedAt] is present and not
    empty, the outcome of [buildRssFeed] is the same for every run but for
    the line of the build date, which is the only place the clock goes to:
    the same document, or the same error when an item has no link. An item
    without [publishedAt] takes the time of the run as its publication
    date, so that its [pubDate] does change from run to run. *)
Theorem only_build_date_reads_clock (Date_parse : jsstring -> Date)
    (items : list FeedItem) :
  (Forall (fun item => truthy_opt (publishedAt item) = true) items ->
   forall clock n,
     buildRssFeed Date_parse clock items n
     = match collect (map (datedText Date_parse)
                        (sortedItems Date_parse items)) with
       | Ok texts =>
           (Ok (join newline
                  (channelHead
                   ++ [buildDateLine Date_parse (clock n)]
                   ++ channelTail (join [] texts))),
            S n)
       | Err e => (Err e, n)
       end)
  /\ (forall clock item n,
         truthy_opt (publishedAt item) = false ->
         renderItem Date_parse clock item n
         = match htmlUrl item with
           | Some link =>
               (Ok (itemText item link (toUTCString (Some (clock n)))), S n)
           | None => (Err undefinedReplace, n)
           end).
Proof.
  split.
  - intros Hd clock n. rewrite buildRssFeed_mapped, renderItems_dated.
    + now destruct (collect (map (datedText Date_parse)
                               (sortedItems Date_parse items))).
    + rewrite Forall_forall in *. intros item Hi. apply Hd.
      apply (Permutation_in _
               (Permutation_sym (sort_perm (compareFn Date_parse) items))).
      exact Hi.
  - intros clock item n Hn. now apply renderItem_undated.
Qed.

Lemma only_build_date_reads_clock_witness :
  let items := selectReleases (marked_parse example_world) react_config
                 react_releases in
  (exists texts,
      collect (map (datedText isoDateParse) (sortedItems isoDateParse items))
      = Ok texts
      /\ buildRssFeed isoDateParse (clock example_world) items 0
         = (Ok (join newline
                  (channelHead
                   ++ [buildDateLine isoDateParse (clock example_world 0)]
                   ++ channelTail (join [] texts))),
            1))
  /\ renderItem isoDateParse (clock example_world) undated_item 0
     = (Ok (itemText undated_item
              (js "https://github.com/nodejs/node/releases/tag/v0.1.0")
              (toUTCString (Some (clock example_world 0)))), 1).
Proof.
  intros items.
  destruct (only_build_date_reads_clock isoDateParse items) as [Hdated _].
  destruct (only_build_date_reads_clock isoDateParse [undated_item])
    as [_ Hundated].
  split.
  - assert (Hp : Forall (fun item => truthy_opt (publishedAt item) = true)
                   items) by (repeat constructor).
    specialize (Hdated Hp (clock example_world) 0).
    destruct (collect (map (datedText isoDateParse)
                         (sortedItems isoDateParse items)))
      as [texts|e] eqn:E.
    + exists texts. split; [reflexivity|exact Hdated].
    + vm_compute in E. discriminate E.
  - exact (Hundated (clock example_world) undated_item 0 eq_refl).
Defined.

(** C7, as stated, fails: for the same single item, which has no
    [publishedAt], two runs a day apart print different [pubDate] lines. *)
Lemma undated_item_takes_run_time :
  let line18 clock :=
    match fst (buildRssFeed isoDateParse clock [undated_item] 0) with
    | Ok document => nth 18 (split 10%N document) []
    | Err e => e
    end in
  line18 (fun _ => 1700000000000%Z)
  = js "      <pubDate>Tue, 14 Nov 2023 22:13:20 GMT</pubDate>"
  /\ line18 (fun _ => 1700086400000%Z)
     = js "      <pubDate>Wed, 15 Nov 2023 22:13:20 GMT</pubDate>".
Proof. split; vm_compute; reflexivity. Qed.

(* ================================================================== *)
(** * The order of the items in the document *)
(* ================================================================== *)

(** C6 (amended). When every [publishedAt] that is present is a valid date,
    the items of the feed are the items given, in descending order of the
    time of [publishedAt], an item without [publishedAt] counting as dated
    at epoch zero: nothing dated before the epoch precedes it and nothing
    dated after the epoch follows it. Items of equal time keep their order.
    The document that [buildRssFeed] returns lists the texts of the items
    in that order. *)
Theorem feed_order (Date_parse : jsstring -> Date) (clock : nat -> Z)
    (items : list FeedItem) (n : nat) :
  Forall (fun item => getTime Date_parse (publishedAt item) <> None) items ->
  let feed := sortedItems Date_parse items in
  Permutation items feed
  /\ descending (sortKey Date_parse) feed
  /\ (forall item, publishedAt item = None -> sortKey Date_parse item = 0%Z)
  /\ (forall t, withKey Date_parse t feed = withKey Date_parse t items)
  /\ (forall before item after,
         feed = before ++ item :: after -> publishedAt item = None ->
         Forall (fun earlier => (0 <= sortKey Date_parse earlier)%Z) before
         /\ Forall (fun later => (sortKey Date_parse later <= 0)%Z) after)
  /\ (forallb hasLink items = true ->
      exists texts built,
        fst (buildRssFeed Date_parse clock items n)
        = Ok (join newline
                (channelHead ++ [built] ++ channelTail (join [] texts)))
        /\ Forall2 (fun item text =>
                      exists pubDate, textWith item pubDate = Ok text)
                   feed texts).
Proof.
  intros Hd feed.
  assert (Hs : descending (sortKey Date_parse) feed).
  { apply sort_descending with
      (dom := fun item => getTime Date_parse (publishedAt item) <> None);
      auto using compareFn_key. }
  assert (H0 : forall item, publishedAt item = None ->
                            sortKey Date_parse item = 0%Z).
  { intros item E. unfold sortKey. now rewrite E. }
  split; [apply sort_perm|]. split; [exact Hs|]. split; [exact H0|].
  split; [|split].
  - intros t. apply sort_stable with
      (dom := fun item => getTime Date_parse (publishedAt item) <> None);
      auto using compareFn_key.
  - intros before item after E Hn. rewrite E in Hs. split.
    + apply descending_head in Hs. now rewrite (H0 item Hn) in Hs.
    + apply descending_tail in Hs. now rewrite (H0 item Hn) in Hs.
  - intros Hl.
    pose proof (buildRssFeed_ok Date_parse clock items n) as Hok.
    rewrite Hl, buildRssFeed_mapped in Hok.
    rewrite buildRssFeed_mapped. fold feed in Hok |- *.
    destruct (mapC (renderItem Date_parse clock) feed n)
      as [[texts|e] k] eqn:Em; [|discriminate].
    exists texts, (buildDateLine Date_parse (clock k)).
    split; [reflexivity|].
    exact (proj1 (renderItems_texts Date_parse clock feed n Em)).
Qed.

Lemma feed_order_witness :
  let clock := fun _ : nat => 1700000000000%Z in
  let items := [ dated undated_item "2023-01-01T00:00:00Z";
                 undated_item;
                 dated undated_item "2024-01-01T00:00:00Z" ] in
  let feed := sortedItems isoDateParse items in
  Permutation items feed
  /\ descending (sortKey isoDateParse) feed
  /\ (forall t, withKey isoDateParse t feed = withKey isoDateParse t items)
  /\ (forall before item after,
         feed = before ++ item :: after -> publishedAt item = None ->
         Forall (fun earlier => (0 <= sortKey isoDateParse earlier)%Z) before
         /\ Forall (fun later => (sortKey isoDateParse later <= 0)%Z) after)
  /\ (exists texts built,
        fst (buildRssFeed isoDateParse clock items 0)
        = Ok (join newline
                (channelHead ++ [built] ++ channelTail (join [] texts)))
        /\ Forall2 (fun item text =>
                      exists pubDate, textWith item pubDate = Ok text)
                   feed texts).
Proof.
  intros clock items feed.
  assert (Hd : Forall (fun item =>
                         getTime isoDateParse (publishedAt item) <> None)
                 items)
    by (repeat constructor; discriminate).
  destruct (@feed_order isoDateParse clock items 0 Hd)
    as (Hp & Hs & _ & Hk & He & Hdoc).
  split; [exact Hp|]. split; [exact Hs|]. split; [exact Hk|].
  split; [exact He|]. exact (Hdoc eq_refl).
Defined.

(** C6, as stated, fails: an item without [publishedAt] counts as dated at
    the epoch itself, so an item that has a timestamp, before 1970, comes
    after it in the document. *)
Lemma undated_before_pre_epoch :
  let early := dated undated_item "1969-12-31T23:59:59Z" in
  let link := js "https://github.com/nodejs/node/releases/tag/v0.1.0" in
  sortedItems isoDateParse [early; undated_item] = [undated_item; early]
  /\ fst (buildRssFeed isoDateParse (fun _ => 1700000000000%Z)
            [early; undated_item] 0)
     = Ok (join newline
             (channelHead
              ++ [buildDateLine isoDateParse 1700000000000%Z]
              ++ channelTail
                   (join []
                      [ itemText undated_item link
                          (js "Tue, 14 Nov 2023 22:13:20 GMT");
                        itemText early link
                          (js "Wed, 31 Dec 1969 23:59:59 GMT") ]))).
Proof. split; vm_compute; reflexivity. Qed.

(* ================================================================== *)
(** * CDATA: what [wrapInCdata] writes is read back *)
(* ================================================================== *)


Lemma skipn_app_length {A} (p s : list A) : skipn (List.length p) (p ++ s) = s.
Proof. induction p; simpl; auto. Qed.


Section ReplaceSteps.

Variables (r : regex) (len : nat) (repl : jsstring).

Lemma replaceFrom_match c s s1 g n :
  m len r (c :: s) [] (fun s1 g1 => Some (s1, g1)) = Some (s1, g) ->
  List.length (c :: s) - List.length s1 = S n ->
  replaceFrom r len repl 0 (c :: s) = repl ++ replaceFrom r len repl n s.
Proof. intros Hm Hl. cbn [replaceFrom]. now rewrite Hm, Hl. Qed.

Lemma replaceFrom_nomatch c s :
  m len r (c :: s) [] (fun s1 g1 => Some (s1, g1)) = None ->
  replaceFrom r len repl 0 (c :: s) = c :: replaceFrom r len repl 0 s.
Proof. intros Hm. cbn [replaceFrom]. now rewrite Hm. Qed.


End ReplaceSteps.

Section Escape.

Variable len : nat.

Lemma m_cdataEnd s :
  m len cdataEnd s [] (fun s1 g1 => Some (s1, g1))
  = if startsWith cdataClose s then Some (skipn 3 s, []) else None.
Proof.
  unfold cdataEnd, cdataClose. cbn [Lit m js list_ascii_of_string map startsWith].
  destruct s as [|c1 [|c2 [|c3 s]]]; cbn [startsWith]; unfold isChar;
    cbn [N_of_ascii N.add N.mul].
  - reflexivity.
  - now destruct (N.eqb c1 _).
  - now destruct (N.eqb c1 _), (N.eqb c2 _).
  - now destruct (N.eqb c1 _), (N.eqb c2 _), (N.eqb c3 _).
Qed.

Lemma esc_nil : esc len [] = [].
Proof. reflexivity. Qed.


Lemma esc_cons c s :
  startsWith cdataClose (c :: s) = false -> esc len (c :: s) = c :: esc len s.
Proof.
  intros H. unfold esc. apply replaceFrom_nomatch. now rewrite m_cdataEnd, H.
Qed.











End Escape.


(** The description element of the first copy of the file, which the later
    copy replaces: a body with the end of a CDATA section in it does not
    read back. *)
Lemma first_copy_description_breaks :
  readCdataElement (js "description") (firstCopyDescription (js "a]]>b")) = None
  /\ readCdataElement (js "description")
       (wrapInCdata (js "description") (js "a]]>b")) = Some (js "a]]>b").
Proof. split; reflexivity. Qed.

(* ================================================================== *)
(** * Further properties of the classifier *)
(* ================================================================== *)

(** X1. The classifier accepts a tag exactly when the tag is a numeric
    portion, a [v] in front or not, followed by nothing or by a suffix for
    the pattern, with MAJOR and MINOR integers for [Number.isInteger] and
    PATCH absent or 0; every other string is rejected. *)
Theorem classifier_accepts_exactly (tag : jsstring) :
  isMajorOrMinorRelease (Some tag) = true
  <-> exists ver sfx,
        tag = versionText ver ++ sfx
        /\ wellFormedVersion ver = true
        /\ isOptionalSuffix sfx = true
        /\ integersInRange ver = true
        /\ patchIsZero ver = true.
Proof.
  split.
  - intros H.
    assert (Hex : exists s1 g, exec semverRegex tag = Some (s1, g)).
    { unfold isMajorOrMinorRelease in H.
      destruct (negb (truthy tag)); [discriminate|].
      destruct (exec semverRegex tag) as [[s1 g]|]; [eauto|discriminate]. }
    destruct Hex as (s1 & g & Hex). apply semver_match_inv in Hex.
    destruct Hex as (ver & sfx & Hwf & Hs & -> & _).
    rewrite classify_version in H
      by auto using isSuffix_not_continuation.
    apply andb_true_iff in H. destruct H as [H Hp].
    apply andb_true_iff in H. destruct H as [Ho Hr].
    exists ver, sfx. auto.
  - intros (ver & sfx & -> & Hwf & Hs & Hr & Hp).
    rewrite classify_version; auto.
    + now rewrite Hs, Hr, Hp.
    + apply isSuffix_not_continuation. now apply isOptionalSuffix_spec.
Qed.

Lemma classifier_accepts_exactly_witness :
  isMajorOrMinorRelease (Some (js "v2.10.0+build.7")) = true.
Proof.
  apply (proj2 (classifier_accepts_exactly (js "v2.10.0+build.7"))).
  exists {| v_prefix := true; v_major := js "2"; v_minor := js "10";
            v_patch := Some (js "0") |}, (js "+build.7").
  split; [reflexivity|].
  split; [reflexivity|].
  split; [reflexivity|].
  split; [vm_compute; reflexivity|reflexivity].
Defined.

(* ================================================================== *)
(** * [escapeXml] *)
(* ================================================================== *)

(** Replacing every match of a pattern that matches one code unit of a
    class and nothing else. *)
Lemma replaceFrom_class r len repl (p : char16 -> bool) :
  (forall c s, m len r (c :: s) [] (fun s1 g1 => Some (s1, g1))
               = if p c then Some (s, []) else None) ->
  m len r [] [] (fun s1 g1 => Some (s1, g1)) = None ->
  forall s,
    replaceFrom r len repl 0 s
    = flat_map (fun c => if p c then repl else [c]) s.
Proof.
  intros Hm H0. induction s as [|c s IH].
  - cbn [replaceFrom flat_map]. now rewrite H0.
  - cbn [flat_map]. specialize (Hm c s). destruct (p c).
    + rewrite (@replaceFrom_match r len repl c s s [] 0 Hm).
      * now rewrite IH.
      * cbn [List.length]. lia.
    + rewrite (replaceFrom_nomatch r len repl c s Hm). now rewrite IH.
Qed.

Lemma replaceAll_char (a : ascii) repl s :
  replaceAll (Lit (String a EmptyString)) repl s
  = flat_map (fun c => if isChar c a then repl else [c]) s.
Proof.
  unfold replaceAll. apply replaceFrom_class.
  - intros c t. cbn [Lit m]. now destruct (isChar c a).
  - reflexivity.
Qed.

Lemma replaceAll_quote repl s :
  replaceAll (Cls (fun c => N.eqb c 34)) repl s
  = flat_map (fun c => if N.eqb c 34 then repl else [c]) s.
Proof.
  unfold replaceAll.
  apply replaceFrom_class with (p := fun c => N.eqb c 34).
  - intros c t. cbn [m]. now destruct (N.eqb c 34).
  - reflexivity.
Qed.

Lemma flat_map_flat_map {A B C} (f : B -> list C) (g : A -> list B) l :
  flat_map f (flat_map g l) = flat_map (fun x => flat_map f (g x)) l.
Proof.
  induction l as [|x l IH]; simpl; [reflexivity|].
  now rewrite flat_map_app, IH.
Qed.

(** The five passes of [escapeXml] amount to one pass that escapes each
    code unit on its own: the entities written by a pass hold nothing that
    a later pass replaces. *)
Lemma escapeXml_chars value : escapeXml value = flat_map escapeChar value.
Proof.
  unfold escapeXml.
  rewrite !replaceAll_char, replaceAll_quote, !flat_map_flat_map.
  apply flat_map_ext. intros c. unfold escapeChar, isChar.
  change (N_of_ascii "&") with 38%N. change (N_of_ascii "<") with 60%N.
  change (N_of_ascii ">") with 62%N. change (N_of_ascii "'") with 39%N.
  destruct (N.eqb c 38) eqn:E1; [apply N.eqb_eq in E1; now subst|].
  destruct (N.eqb c 60) eqn:E2; [apply N.eqb_eq in E2; now subst|].
  destruct (N.eqb c 62) eqn:E3; [apply N.eqb_eq in E3; now subst|].
  destruct (N.eqb c 34) eqn:E4; [apply N.eqb_eq in E4; now subst|].
  destruct (N.eqb c 39) eqn:E5; [apply N.eqb_eq in E5; now subst|].
  repeat (cbn [flat_map app]; rewrite ?E1, ?E2, ?E3, ?E4, ?E5).
  reflexivity.
Qed.

Lemma escapeChar_cases c :
  (c = 38%N /\ escapeChar c = js "&amp;")
  \/ (c = 60%N /\ escapeChar c = js "&lt;")
  \/ (c = 62%N /\ escapeChar c = js "&gt;")
  \/ (c = 34%N /\ escapeChar c = js "&quot;")
  \/ (c = 39%N /\ escapeChar c = js "&apos;")
  \/ (c <> 38%N /\ c <> 60%N /\ c <> 62%N /\ c <> 34%N /\ c <> 39%N
      /\ escapeChar c = [c]).
Proof.
  unfold escapeChar, isChar.
  change (N_of_ascii "&") with 38%N. change (N_of_ascii "<") with 60%N.
  change (N_of_ascii ">") with 62%N. change (N_of_ascii "'") with 39%N.
  destruct (N.eqb_spec c 38); [now left|].
  destruct (N.eqb_spec c 60); [now right; left|].
  destruct (N.eqb_spec c 62); [now right; right; left|].
  destruct (N.eqb_spec c 34); [now right; right; right; left|].
  destruct (N.eqb_spec c 39); [now right; right; right; right; left|].
  right; right; right; right; right. auto 10.
Qed.

(** X2. The text that [escapeXml] returns holds none of the code units
    [<], [>], the double quote and the apostrophe, whatever the value: it
    can stand between tags and inside an attribute value in either kind of
    quotes. *)
Theorem escapeXml_has_no_markup (value : jsstring) :
  Forall (fun c => c <> 60%N /\ c <> 62%N /\ c <> 34%N /\ c <> 39%N)
         (escapeXml value).
Proof.
  rewrite escapeXml_chars. apply Forall_flat_map, Forall_forall.
  intros c _.
  destruct (escapeChar_cases c)
    as [[_ ->]|[[_ ->]|[[_ ->]|[[_ ->]|[[_ ->]|(_ & H2 & H3 & H4 & H5 & ->)]]]]];
    repeat constructor; auto; discriminate.
Qed.

Lemma unescape_escapeChar c rest :
  unescapeFrom 0 (escapeChar c ++ rest) = c :: unescapeFrom 0 rest.
Proof.
  destruct (escapeChar_cases c)
    as [[-> ->]|[[-> ->]|[[-> ->]|[[-> ->]|[[-> ->]|(H1 & _ & _ & _ & _ & ->)]]]]];
    try reflexivity.
  cbn [app unescapeFrom startsWith js list_ascii_of_string map].
  apply N.eqb_neq in H1.
  change (N_of_ascii "&") with 38%N. now rewrite H1.
Qed.

(** X3. Nothing is lost in escaping: reading the five entities back gives
    the value again, so that two values with the same escaped text are the
    same value. *)
Theorem unescape_escapeXml (value : jsstring) :
  unescapeXml (escapeXml value) = value.
Proof.
  rewrite escapeXml_chars. unfold unescapeXml.
  induction value as [|c value IH]; [reflexivity|].
  cbn [flat_map]. now rewrite unescape_escapeChar, IH.
Qed.

(* ================================================================== *)
(** * [wrapInCdata] on ordinary values *)
(* ================================================================== *)

Lemma esc_without_close len value :
  occurs cdataClose value = false -> esc len value = value.
Proof.
  induction value as [|c value IH]; [reflexivity|].
  cbn [occurs]. intros H. apply orb_false_iff in H. destruct H as [Hs Ho].
  rewrite esc_cons by assumption. now rewrite IH.
Qed.

(** X4. A value in which the end of a CDATA section does not occur is
    wrapped as it is, code unit for code unit, in a single section. *)
Theorem wrapInCdata_plain (tagName_ value : jsstring) :
  occurs cdataClose value = false ->
  wrapInCdata tagName_ value
  = js "<" ++ tagName_ ++ js "><![CDATA[" ++ value ++ js "]]></"
    ++ tagName_ ++ js ">".
Proof.
  intros H. unfold wrapInCdata, replaceAll.
  change (replaceFrom cdataEnd (List.length value) (js "]]]]><![CDATA[>") 0 value)
    with (esc (List.length value) value).
  now rewrite esc_without_close.
Qed.

Lemma wrapInCdata_plain_witness :
  wrapInCdata (js "content:encoded") (js "<p>Fixes a crash.</p>")
  = js "<" ++ js "content:encoded" ++ js "><![CDATA["
    ++ js "<p>Fixes a crash.</p>" ++ js "]]></" ++ js "content:encoded"
    ++ js ">".
Proof.
  apply (@wrapInCdata_plain (js "content:encoded") (js "<p>Fixes a crash.</p>")).
  reflexivity.
Defined.

(* ================================================================== *)
(** * [trim], [renderMarkdownToHtml] and [buildSummary] *)
(* ================================================================== *)

Lemma trimStart_split s :
  exists x, s = x ++ trimStart s /\ Forall (fun c => isSpace c = true) x.
Proof.
  induction s as [|c s IH]; simpl.
  - exists []. auto.
  - destruct (isSpace c) eqn:E.
    + destruct IH as (x & Hx & Hf). exists (c :: x). split.
      * simpl. now rewrite <- Hx.
      * now constructor.
    + exists []. auto.
Qed.

Lemma trimStart_head s : headNot isSpace (trimStart s).
Proof.
  induction s as [|c s IH]; simpl; [exact I|].
  destruct (isSpace c) eqn:E; [assumption|]. simpl. exact E.
Qed.

Lemma trimStart_length s : List.length (trimStart s) <= List.length s.
Proof.
  destruct (trimStart_split s) as (x & Hx & _).
  rewrite Hx at 2. rewrite length_app. lia.
Qed.

Lemma trim_length s : List.length (trim s) <= List.length s.
Proof.
  unfold trim, trimEnd. rewrite length_rev.
  etransitivity; [apply trimStart_length|]. rewrite length_rev.
  apply trimStart_length.
Qed.

Lemma trimStart_all_space s :
  forallb isSpace s = true -> trimStart s = [].
Proof.
  induction s as [|c s IH]; simpl; [reflexivity|].
  intros H. apply andb_true_iff in H. destruct H as [-> H]. auto.
Qed.

Lemma trim_all_space s : forallb isSpace s = true -> trim s = [].
Proof.
  intros H. unfold trim, trimEnd. rewrite (trimStart_all_space s H).
  reflexivity.
Qed.

(** What [trim] returns is a part of the string, between white space. *)
Lemma trim_split s :
  exists x y, s = x ++ trim s ++ y
              /\ Forall (fun c => isSpace c = true) x
              /\ Forall (fun c => isSpace c = true) y.
Proof.
  destruct (trimStart_split s) as (x & Hx & Hfx).
  destruct (trimStart_split (rev (trimStart s))) as (y & Hy & Hfy).
  exists x, (rev y). split; [|split].
  - rewrite Hx at 1. f_equal. unfold trim, trimEnd.
    rewrite <- rev_app_distr, <- Hy. now rewrite rev_involutive.
  - assumption.
  - now apply Forall_rev.
Qed.

Lemma trim_ends s :
  headNot isSpace (trim s) /\ headNot isSpace (rev (trim s)).
Proof.
  split.
  - destruct (trimStart_split (rev (trimStart s))) as (y & Hy & _).
    pose proof (trimStart_head s) as Hh.
    assert (E : trimStart s = trim s ++ rev y).
    { unfold trim, trimEnd. rewrite <- rev_app_distr, <- Hy.
      now rewrite rev_involutive. }
    rewrite E in Hh. destruct (trim s); [exact I|exact Hh].
  - unfold trim, trimEnd. rewrite rev_involutive. apply trimStart_head.
Qed.

Lemma Forall_trim (P : char16 -> Prop) s : Forall P s -> Forall P (trim s).
Proof.
  intros H. destruct (trim_split s) as (x & y & E & _ & _).
  rewrite E in H. apply Forall_app in H. destruct H as [_ H].
  apply Forall_app in H. tauto.
Qed.

(** X5. Whatever the renderer returns, the HTML kept for a release neither
    starts nor ends with white space, and it is empty when the body is
    blank or the renderer returns white space only. *)
Theorem rendered_html_is_trimmed (marked_parse : jsstring -> jsstring)
    (markdown : jsstring) :
  let html := renderMarkdownToHtml marked_parse markdown in
  headNot isSpace html
  /\ headNot isSpace (rev html)
  /\ (forallb isSpace markdown = true -> html = [])
  /\ (forallb isSpace (marked_parse (trim markdown)) = true -> html = []).
Proof.
  unfold renderMarkdownToHtml.
  destruct (truthy (trim markdown)) eqn:E; cbn [negb].
  - destruct (trim_ends (marked_parse (trim markdown))) as [H1 H2].
    repeat split; auto.
    + intros H. rewrite (trim_all_space markdown H) in E. discriminate.
    + apply trim_all_space.
  - repeat split; auto; exact I.
Qed.

Lemma rendered_html_is_trimmed_witness :
  let html := renderMarkdownToHtml (fun md => js "<p>" ++ md ++ js "</p>  ")
                (js "  Fixes a crash. ") in
  headNot isSpace html /\ headNot isSpace (rev html)
  /\ renderMarkdownToHtml (fun md => js "<p>" ++ md ++ js "</p>")
       (js "  " ++ newline) = [].
Proof.
  destruct (rendered_html_is_trimmed (fun md => js "<p>" ++ md ++ js "</p>  ")
              (js "  Fixes a crash. ")) as (H1 & H2 & _).
  destruct (rendered_html_is_trimmed (fun md => js "<p>" ++ md ++ js "</p>")
              (js "  " ++ newline)) as (_ & _ & H3 & _).
  split; [exact H1|]. split; [exact H2|]. apply H3. reflexivity.
Defined.

(** X6. A release whose body is missing or blank gets the fixed fallbacks:
    an empty [descriptionHtml], the fallback summary, and the fallback
    paragraph as the content element; the renderer is not consulted. *)
Theorem blank_body_falls_back (marked_parse : jsstring -> jsstring)
    (slug_ : jsstring) (release : GitHubRelease) :
  forallb isSpace (nullish (body release) []) = true ->
  let item := normalize marked_parse slug_ release in
  descriptionHtml item = []
  /\ buildSummary (descriptionHtml item) = js "No release notes provided."
  /\ contentElement item
     = js "<content:encoded><![CDATA[<p>No release notes provided.</p>]]></content:encoded>".
Proof.
  intros H item.
  assert (E : descriptionHtml item = []).
  { unfold item, normalize. cbn [descriptionHtml].
    unfold renderMarkdownToHtml.
    rewrite (trim_all_space _ H). reflexivity. }
  split; [exact E|]. unfold contentElement, contentHtml. rewrite E.
  split; reflexivity.
Qed.

Lemma blank_body_falls_back_witness :
  let item := normalize (fun md => js "<p>" ++ md ++ js "</p>")
                (js "nodejs/node")
                (release_of "nodejs/node" "v22.0.0" "2024-04-24T12:00:00Z"
                   (Some (js "   " ++ newline))) in
  descriptionHtml item = []
  /\ buildSummary (descriptionHtml item) = js "No release notes provided."
  /\ contentElement item
     = js "<content:encoded><![CDATA[<p>No release notes provided.</p>]]></content:encoded>".
Proof.
  apply (@blank_body_falls_back (fun md => js "<p>" ++ md ++ js "</p>")
           (js "nodejs/node")
           (release_of "nodejs/node" "v22.0.0" "2024-04-24T12:00:00Z"
              (Some (js "   " ++ newline)))).
  reflexivity.
Defined.

(** X7. The summary is never empty and never longer than 300 code units,
    whatever the HTML. *)
Theorem buildSummary_bounds (html : jsstring) :
  buildSummary html <> [] /\ List.length (buildSummary html) <= 300.
Proof.
  unfold buildSummary.
  destruct (truthy html); cbn [negb]; [|split; [discriminate|simpl; lia]].
  destruct (stripHtmlTags html) as [|c text] eqn:E; cbn [truthy negb];
    [split; [discriminate|simpl; lia]|].
  destruct (Nat.leb_spec (List.length (c :: text)) 300) as [Hle|Hgt].
  - split; [discriminate|exact Hle].
  - split.
    + intros H. apply app_eq_nil in H. destruct H as [_ H]. discriminate.
    + rewrite length_app.
      pose proof (trim_length (firstn (300 - 3) (c :: text))) as Ht.
      rewrite length_firstn in Ht. simpl List.length at 2. lia.
Qed.

(** Every code unit that a global replacement returns comes from the
    replacement text or is a code unit at which the pattern did not match,
    when the pattern matches no empty string. *)
Lemma replaceFrom_Forall (P : char16 -> Prop) r len repl :
  Forall P repl ->
  (forall c s,
      match m len r (c :: s) [] (fun s1 g1 => Some (s1, g1)) with
      | Some (s1, _) => List.length (c :: s) - List.length s1 <> 0
      | None => P c
      end) ->
  forall s skip, Forall P (replaceFrom r len repl skip s).
Proof.
  intros Hr Hp. induction s as [|c s IH]; intros skip; cbn [replaceFrom].
  - destruct skip; [|constructor].
    destruct (m len r [] [] _); [assumption|constructor].
  - destruct skip as [|n]; [|apply IH].
    specialize (Hp c s).
    destruct (m len r (c :: s) [] _) as [[s1 g]|].
    + destruct (List.length (c :: s) - List.length s1); [congruence|].
      apply Forall_app. split; [assumption|apply IH].
    + constructor; [assumption|apply IH].
Qed.

Lemma collapse_spaces_plain s :
  Forall plainSpace (replaceAll (PlusG isSpace) (js " ") s).
Proof.
  unfold replaceAll. apply replaceFrom_Forall.
  - repeat constructor.
  - intros c t. unfold PlusG. cbn [m].
    destruct (isSpace c) eqn:E.
    + destruct (starGreedy isSpace t [] _) as [[s1 g]|] eqn:Es;
        [|exfalso; revert Es; apply starGreedy_here; discriminate].
      apply starGreedy_sound in Es. destruct Es as (x & s2 & -> & _ & Ek).
      injection Ek as <- <-. cbn [List.length]. rewrite length_app. lia.
    + unfold plainSpace. congruence.
Qed.

Lemma stripHtmlTags_plain value : Forall plainSpace (stripHtmlTags value).
Proof. unfold stripHtmlTags. apply Forall_trim, collapse_spaces_plain. Qed.

Lemma Forall_firstn {A} (P : A -> Prop) n l :
  Forall P l -> Forall P (firstn n l).
Proof.
  intros H. revert n. induction H; intros [|n]; simpl; constructor; auto.
Qed.

(** X8. All the white space of a summary is plain spaces: no line break,
    tab or other space of the HTML reaches the description element. The
    summary has no white space at either end either. *)
Theorem buildSummary_spaces (html : jsstring) :
  Forall plainSpace (buildSummary html)
  /\ headNot isSpace (buildSummary html)
  /\ headNot isSpace (rev (buildSummary html)).
Proof.
  assert (Hfb : Forall plainSpace (js "No release notes provided.")
                /\ headNot isSpace (js "No release notes provided.")
                /\ headNot isSpace (rev (js "No release notes provided."))).
  { split; [|split; reflexivity].
    repeat constructor; unfold plainSpace; vm_compute; congruence. }
  unfold buildSummary.
  destruct (truthy html); cbn [negb]; [|exact Hfb].
  pose proof (stripHtmlTags_plain html) as Hp.
  assert (He : headNot isSpace (stripHtmlTags html)
               /\ headNot isSpace (rev (stripHtmlTags html))).
  { unfold stripHtmlTags. apply trim_ends. }
  destruct (truthy (stripHtmlTags html)); cbn [negb]; [|exact Hfb].
  destruct (List.length (stripHtmlTags html) <=? 300).
  - tauto.
  - split; [|split].
    + apply Forall_app. split.
      * now apply Forall_trim, Forall_firstn.
      * repeat constructor; unfold plainSpace; vm_compute; congruence.
    + destruct (trim_ends (firstn (300 - 3) (stripHtmlTags html))) as [H1 _].
      destruct (trim (firstn (300 - 3) (stripHtmlTags html))); [reflexivity|exact H1].
    + rewrite rev_app_distr. reflexivity.
Qed.

(* ================================================================== *)
(** * [buildFeedUrl] *)
(* ================================================================== *)

Lemma endsWith_app a b : endsWith (a ++ b) b = true.
Proof.
  unfold endsWith. rewrite length_app, Nat.add_sub, skipn_app_length.
  now apply jsstring_eqb_eq.
Qed.

Lemma endsWith_split s suffix :
  endsWith s suffix = true -> exists a, s = a ++ suffix.
Proof.
  unfold endsWith. intros H. apply jsstring_eqb_eq in H.
  set (k := List.length s - List.length suffix) in *.
  exists (firstn k s). rewrite <- H. symmetry. apply firstn_skipn.
Qed.

(** X9. The address of the feed always ends with [/feed.xml], and a site
    link gives the same address with and without a slash at its end: one
    slash is added only when the link does not end with one. *)
Theorem buildFeedUrl_slash (siteLink : jsstring) :
  endsWith (buildFeedUrl siteLink) (js "/feed.xml") = true
  /\ (endsWith siteLink (js "/") = false ->
      buildFeedUrl (siteLink ++ js "/") = buildFeedUrl siteLink).
Proof.
  unfold buildFeedUrl. split.
  - destruct (endsWith siteLink (js "/")) eqn:E.
    + apply endsWith_split in E. destruct E as (a & ->).
      rewrite <- app_assoc. apply (endsWith_app a (js "/feed.xml")).
    + rewrite <- app_assoc. apply (endsWith_app siteLink (js "/feed.xml")).
  - intros E. rewrite E. now rewrite (endsWith_app siteLink (js "/")).
Qed.

Lemma buildFeedUrl_slash_witness :
  endsWith (buildFeedUrl SITE_LINK) (js "/feed.xml") = true
  /\ buildFeedUrl (SITE_LINK ++ js "/") = buildFeedUrl SITE_LINK.
Proof.
  destruct (buildFeedUrl_slash SITE_LINK) as [H1 H2].
  split; [exact H1|]. apply H2. reflexivity.
Defined.

(* ================================================================== *)
(** * The slug of a repository *)
(* ================================================================== *)

(** The first segment of [split] and what follows it. *)
Lemma split_first sep s :
  exists h t,
    split sep s = h :: t
    /\ forallb (fun c => negb (N.eqb c sep)) h = true
    /\ ((t = [] /\ s = h)
        \/ (exists s', s = h ++ sep :: s' /\ t = split sep s')).
Proof.
  induction s as [|c s IH]; cbn [split].
  - exists [], []. auto.
  - destruct (N.eqb_spec c sep) as [->|Hne].
    + exists [], (split sep s). split; [reflexivity|]. split; [reflexivity|].
      right. exists s. auto.
    + destruct IH as (h & t & E & Hh & Ht). rewrite E.
      exists (c :: h), t. split; [reflexivity|]. split.
      * cbn [forallb]. apply N.eqb_neq in Hne. now rewrite Hne, Hh.
      * destruct Ht as [[-> ->]|(s' & -> & ->)]; [now left|].
        right. exists s'. auto.
Qed.

Lemma split_segment (sep : char16) (h s' : list char16) :
  forallb (fun c => negb (N.eqb c sep)) h = true ->
  split sep (h ++ sep :: s') = h :: split sep s'.
Proof.
  induction h as [|c h IH]; cbn [app forallb split]; intros H.
  - now rewrite N.eqb_refl.
  - apply andb_true_iff in H. destruct H as [Hc Hh].
    apply negb_true_iff in Hc. now rewrite Hc, IH.
Qed.

Lemma split_last (sep : char16) (h : list char16) :
  forallb (fun c => negb (N.eqb c sep)) h = true -> split sep h = [h].
Proof.
  induction h as [|c h IH]; cbn [forallb split]; intros H; [reflexivity|].
  apply andb_true_iff in H. destruct H as [Hc Hh].
  apply negb_true_iff in Hc. now rewrite Hc, IH.
Qed.

(** X10. A slug is accepted exactly as far as its first two segments go:
    the request is made when the text before the first slash and the text
    between the first and the second slash (or the end) are not empty; the
    text handed to [new URL] is then made of these two segments, as they
    are, and what follows a second slash plays no part. The page size
    asked for is twice the cap, at most 50, and the token goes along when
    it is not empty. *)
Theorem requestFor_segments (token : option jsstring)
    (cfg : NormalizedRepoConfig) (request : Request) :
  requestFor token cfg = Ok request
  <-> exists owner repo rest,
        owner <> [] /\ repo <> []
        /\ slashFree owner = true /\ slashFree repo = true
        /\ (rest = [] \/ exists more, rest = js "/" ++ more)
        /\ slug cfg = owner ++ js "/" ++ repo ++ rest
        /\ request
           = {| url_text := js "https://api.github.com/repos/" ++ owner
                            ++ js "/" ++ repo ++ js "/releases";
                per_page := Z.min (maxReleases cfg * 2) 50;
                authorization := if truthy_opt token then token else None |}.
Proof.
  unfold requestFor. split.
  - destruct (split_first (chr "/") (slug cfg)) as (owner & t & E & Ho & Ht).
    rewrite E. cbn [nth_error].
    destruct Ht as [[-> Hs]|(s' & Hs & ->)].
    + cbn [nth_error truthy_opt negb]. rewrite orb_true_r. discriminate.
    + destruct (split_first (chr "/") s') as (repo & t' & E' & Hr & Ht').
      rewrite E'. cbn [nth_error truthy_opt].
      destruct owner as [|o owner]; [discriminate|].
      destruct repo as [|r repo]; [discriminate|].
      cbn [truthy negb orb nullish]. intros H. injection H as <-.
      destruct Ht' as [[-> Hs']|(s'' & Hs' & ->)].
      * exists (o :: owner), (r :: repo), [].
        repeat split; try discriminate; auto.
        rewrite Hs, Hs'. now rewrite app_nil_r.
      * exists (o :: owner), (r :: repo), (js "/" ++ s'').
        repeat split; try discriminate; eauto.
        rewrite Hs, Hs'. reflexivity.
  - intros (owner & repo & rest & Ho & Hr & So & Sr & Hrest & -> & ->).
    change (owner ++ js "/" ++ repo ++ rest)
      with (owner ++ chr "/" :: repo ++ rest).
    rewrite (split_segment (chr "/") owner (repo ++ rest) So).
    assert (E : exists t, split (chr "/") (repo ++ rest) = repo :: t).
    { destruct Hrest as [->|(more & ->)].
      - rewrite app_nil_r, (split_last (chr "/") repo Sr). eauto.
      - change (repo ++ js "/" ++ more) with (repo ++ chr "/" :: more).
        rewrite (split_segment (chr "/") repo more Sr). eauto. }
    destruct E as (t & ->). cbn [nth_error truthy_opt nullish].
    destruct owner; [congruence|]. destruct repo; [congruence|].
    reflexivity.
Qed.

Lemma requestFor_segments_witness :
  requestFor None {| slug := js "facebook/react/extra"; maxReleases := 40 |}
  = Ok {| url_text := js "https://api.github.com/repos/facebook/react/releases";
          per_page := 50;
          authorization := None |}.
Proof.
  apply (proj2 (requestFor_segments None
                  {| slug := js "facebook/react/extra"; maxReleases := 40 |}
                  {| url_text :=
                       js "https://api.github.com/repos/facebook/react/releases";
                     per_page := 50;
                     authorization := None |})).
  exists (js "facebook"), (js "react"), (js "/extra").
  split; [discriminate|].
  split; [discriminate|].
  split; [reflexivity|].
  split; [reflexivity|].
  split; [right; exists (js "extra"); reflexivity|].
  split; reflexivity.
Defined.

(* ================================================================== *)
(** * The items of a fetched repository, as they are written *)
(* ================================================================== *)

Lemma requestFor_parts token cfg request :
  requestFor token cfg = Ok request ->
  exists owner repo,
    nth_error (split (chr "/") (slug cfg)) 0 = Some owner
    /\ nth_error (split (chr "/") (slug cfg)) 1 = Some repo
    /\ truthy owner = true
    /\ truthy repo = true.
Proof.
  unfold requestFor.
  destruct (nth_error (split (chr "/") (slug cfg)) 0) as [owner|];
    [|discriminate].
  destruct (nth_error (split (chr "/") (slug cfg)) 1) as [repo|];
    [|cbn; rewrite orb_true_r; discriminate].
  cbn [truthy_opt nullish].
  destruct (truthy owner) eqn:T0; [|discriminate].
  destruct (truthy repo) eqn:T1; [|discriminate].
  intros _. exists owner, repo. auto.
Qed.

(** X11. An item of a repository whose request succeeded is written in
    full or not at all. When its release has its [html_url], the [id] is
    that link, the [guid] is marked as a permalink, and no line is left
    out: both category elements are there, the first two segments of the
    slug. When the release has no [html_url], the [id] is the slug, an [@]
    and the tag, and rendering the item throws: [isPermaLink] is never
    written as false for an item that was fetched. *)
Theorem fetched_item_text (marked_parse : jsstring -> jsstring)
    (token : option jsstring) (fetch : Request -> Response)
    (cfg : NormalizedRepoConfig) (items : list FeedItem) (item : FeedItem)
    (Date_parse : jsstring -> Date) (clock : nat -> Z) (n : nat) :
  fetchReleasesForRepo marked_parse token fetch cfg = Ok items ->
  In item items ->
  exists owner repo,
    nth_error (split (chr "/") (slug cfg)) 0 = Some owner
    /\ nth_error (split (chr "/") (slug cfg)) 1 = Some repo
    /\ repoSlug item = slug cfg
    /\ match htmlUrl item with
       | None =>
           item_id item = slug cfg ++ js "@" ++ tagName item
           /\ renderItem Date_parse clock item n = (Err undefinedReplace, n)
       | Some link =>
           let pubDate :=
             fst (formatRssDate Date_parse clock (publishedAt item) n) in
           item_id item = link
           /\ fst (renderItem Date_parse clock item n)
              = Ok (join newline
                      [ js "    <item>";
                        js "      <title>"
                          ++ escapeXml (slug cfg ++ js " " ++ tagName item)
                          ++ js "</title>";
                        js "      <link>" ++ escapeXml link ++ js "</link>";
                        js "      <guid isPermaLink=" ++ dquote ++ js "true"
                          ++ dquote ++ js ">" ++ escapeXml link
                          ++ js "</guid>";
                        js "      <pubDate>" ++ escapeXml pubDate
                          ++ js "</pubDate>";
                        js "      <description>"
                          ++ escapeXml (buildSummary (descriptionHtml item))
                          ++ js "</description>";
                        js "      " ++ contentElement item;
                        js "      <category>" ++ escapeXml owner
                          ++ js "</category>";
                        js "      <category>" ++ escapeXml repo
                          ++ js "</category>";
                        js "      <source url=" ++ dquote
                          ++ escapeXml (js "https://github.com/" ++ slug cfg)
                          ++ dquote ++ js ">" ++ escapeXml (slug cfg)
                          ++ js "</source>";
                        js "    </item>" ])
       end.
Proof.
  intros Hf Hin. unfold fetchReleasesForRepo in Hf.
  destruct (requestFor token cfg) as [request|] eqn:Hq; [|discriminate].
  destruct (requestFor_parts token cfg Hq) as (owner & repo & E0 & E1 & T0 & T1).
  destruct (fetch request); try discriminate. injection Hf as <-.
  unfold selectReleases in Hin. apply in_map_iff in Hin.
  destruct Hin as (release & <- & Hin).
  apply In_slice0 in Hin. apply filter_In in Hin. destruct Hin as [_ Hc].
  destruct (classified_tag_present _ Hc) as (tag & Et & _).
  exists owner, repo. split; [exact E0|]. split; [exact E1|].
  split; [reflexivity|].
  unfold renderItem. cbn [htmlUrl item_id tagName repoSlug normalize].
  destruct (html_url release) as [link|] eqn:El; cbn [nullish].
  - split; [reflexivity|]. unfold bind.
    destruct (formatRssDate Date_parse clock
                (publishedAt (normalize marked_parse (slug cfg) release)) n)
      as [pubDate k].
    cbn [fst ret]. unfold itemText.
    cbn [repoSlug item_id tagName descriptionHtml normalize].
    rewrite El, E0, E1. cbn [truthy_opt nullish]. rewrite T0, T1.
    rewrite (proj2 (jsstring_eqb_eq link link) eq_refl).
    cbn [filter truthy app js list_ascii_of_string map].
    rewrite <- !app_assoc. reflexivity.
  - split; [|reflexivity]. now rewrite Et.
Qed.

Lemma fetched_item_text_witness :
  let w := example_world in
  let item :=
    normalize (marked_parse w) (js "facebook/react")
      (release_of "facebook/react" "v19.0.0" "2024-12-05T18:10:00Z" None) in
  let link := js "https://github.com/facebook/react/releases/tag/v19.0.0" in
  item_id item = link
  /\ fst (renderItem (Date_parse w) (clock w) item 0)
     = Ok (join newline
             [ js "    <item>";
               js "      <title>" ++ escapeXml (js "facebook/react v19.0.0")
                 ++ js "</title>";
               js "      <link>" ++ escapeXml link ++ js "</link>";
               js "      <guid isPermaLink=" ++ dquote ++ js "true"
                 ++ dquote ++ js ">" ++ escapeXml link ++ js "</guid>";
               js "      <pubDate>Thu, 05 Dec 2024 18:10:00 GMT</pubDate>";
               js "      <description>No release notes provided.</description>";
               js "      " ++ contentElement item;
               js "      <category>facebook</category>";
               js "      <category>react</category>";
               js "      <source url=" ++ dquote
                 ++ js "https://github.com/facebook/react" ++ dquote
                 ++ js ">facebook/react</source>";
               js "    </item>" ]).
Proof.
  intros w item link.
  assert (Hf : fetchReleasesForRepo (marked_parse w) (GITHUB_TOKEN w) (fetch w)
                 react_config
               = Ok (selectReleases (marked_parse w) react_config
                       react_releases))
    by (vm_compute; reflexivity).
  assert (Hin : In item (selectReleases (marked_parse w) react_config
                           react_releases))
    by (vm_compute; left; reflexivity).
  destruct (fetched_item_text (marked_parse w) (GITHUB_TOKEN w) (fetch w)
              react_config item (Date_parse w) (clock w) 0 Hf Hin)
    as (owner & repo & E0 & E1 & _ & H).
  assert (Eo : owner = js "facebook")
    by (vm_compute in E0; injection E0 as <-; reflexivity).
  assert (Er : repo = js "react")
    by (vm_compute in E1; injection E1 as <-; reflexivity).
  subst owner repo.
  change (htmlUrl item) with (Some link) in H. cbv beta iota zeta in H.
  destruct H as [Hid Htext]. split; [exact Hid|].
  rewrite Htext. vm_compute. reflexivity.
Defined.

(* ================================================================== *)
(** * How the run ends *)
(* ================================================================== *)

Lemma parseConfigEntries_valid entries :
  (exists repositories, parseConfigEntries entries = Ok repositories)
  <-> forallb validEntry entries = true.
Proof.
  induction entries as [|e es IH]; cbn [parseConfigEntries forallb].
  - split; eauto.
  - destruct e as [s|c|j]; cbn [parseConfigEntry validEntry andb].
    + rewrite <- IH. destruct (parseConfigEntries es);
        split; intros (r & H); try discriminate; eauto.
    + rewrite <- IH. destruct (parseConfigEntries es);
        split; intros (r & H); try discriminate; eauto.
    + split; [intros (r & H); discriminate|discriminate].
Qed.

(** X12. The exit code is 0 or 1. It is 0 exactly when the feed has been
    written, which is exactly when the configuration holds a list of valid
    entries, every item collected has its link, and the file can be
    written; requests that fail play no part. Otherwise nothing is written
    and the last thing printed is the error. *)
Theorem exit_code_of_run (w : World) :
  let ok :=
    exists entries repositories,
      config_file w = Ok (Some entries)
      /\ parseConfigEntries entries = Ok repositories
      /\ forallb hasLink (successes w repositories) = true
      /\ write_error w = None in
  (exitCode (run w) = 0%Z <-> ok)
  /\ (exitCode (run w) = 0%Z <-> written (run w) <> None)
  /\ (exitCode (run w) <> 0%Z ->
      exitCode (run w) = 1%Z
      /\ written (run w) = None
      /\ exists printed message,
           console (run w) = printed ++ [(Error, message)]).
Proof.
  intros ok. unfold ok.
  destruct (config_file w) as [[entries|]|e] eqn:Hc.
  - destruct (parseConfigEntries entries) as [repos|e] eqn:Hp.
    + rewrite (run_settled w Hc Hp). cbv zeta.
      pose proof (buildRssFeed_ok (Date_parse w) (clock w)
                    (successes w repos) 0) as Hok.
      destruct (fst (buildRssFeed (Date_parse w) (clock w)
                       (successes w repos) 0)) as [feed|e];
        cbn [isOk] in Hok.
      * destruct (write_error w) as [e|] eqn:Hw;
          cbn [exitCode written console].
        -- split; [|split].
           ++ split; [discriminate|].
              intros (es & rs & _ & _ & _ & Hn). discriminate.
           ++ split; [discriminate|]. intros Hn. now elim Hn.
           ++ intros _. split; [reflexivity|]. split; [reflexivity|].
              do 2 eexists; reflexivity.
        -- split; [|split].
           ++ split; [|reflexivity]. intros _. exists entries, repos. auto.
           ++ split; [discriminate|reflexivity].
           ++ intros Hn. now elim Hn.
      * destruct (write_error w); cbn [exitCode written console].
        -- split; [|split].
           ++ split; [discriminate|].
              intros (es & rs & E1 & E2 & Hl & _).
              injection E1 as <-. rewrite Hp in E2. injection E2 as <-.
              rewrite Hl in Hok. discriminate.
           ++ split; [discriminate|]. intros Hn. now elim Hn.
           ++ intros _. split; [reflexivity|]. split; [reflexivity|].
              do 2 eexists; reflexivity.
        -- split; [|split].
           ++ split; [discriminate|].
              intros (es & rs & E1 & E2 & Hl & _).
              injection E1 as <-. rewrite Hp in E2. injection E2 as <-.
              rewrite Hl in Hok. discriminate.
           ++ split; [discriminate|]. intros Hn. now elim Hn.
           ++ intros _. split; [reflexivity|]. split; [reflexivity|].
              do 2 eexists; reflexivity.
    + unfold run, main, loadRepoList. rewrite Hc, Hp. cbn.
      split; [|split].
      * split; [discriminate|].
        intros (es & rs & E1 & E2 & _). injection E1 as <-.
        rewrite Hp in E2. discriminate.
      * split; [discriminate|]. intros Hn. now elim Hn.
      * intros _. split; [reflexivity|]. split; [reflexivity|].
        exists []; eexists; reflexivity.
  - unfold run, main, loadRepoList. rewrite Hc. cbn.
    split; [|split].
    + split; [discriminate|]. intros (es & rs & E & _). discriminate.
    + split; [discriminate|]. intros Hn. now elim Hn.
    + intros _. split; [reflexivity|]. split; [reflexivity|].
      exists []; eexists; reflexivity.
  - unfold run, main, loadRepoList. rewrite Hc. cbn.
    split; [|split].
    + split; [discriminate|]. intros (es & rs & E & _). discriminate.
    + split; [discriminate|]. intros Hn. now elim Hn.
    + intros _. split; [reflexivity|]. split; [reflexivity|].
      exists []; eexists; reflexivity.
Qed.

Lemma exit_code_of_run_witness :
  exitCode (run unwritable_world) = 1%Z
  /\ written (run unwritable_world) = None
  /\ exists printed message,
       console (run unwritable_world) = printed ++ [(Error, message)].
Proof.
  destruct (exit_code_of_run unwritable_world) as (_ & _ & H).
  apply H. vm_compute. discriminate.
Defined.

(* ================================================================== *)
(** * The order of the feed and the order of the configuration *)
(* ================================================================== *)

Section SortedUnique.

Variable A : Type.
Variable key : A -> Z.

Lemma descending_strict l :
  descending key l -> NoDup (map key l) ->
  StronglySorted (fun a b => (key b < key a)%Z) l.
Proof.
  induction 1 as [|x l Hs IH Hx]; cbn [map]; intros Hn; constructor.
  - apply IH. now inversion Hn.
  - inversion Hn as [|? ? Hnot _]; subst.
    rewrite Forall_forall in *. intros y Hy.
    specialize (Hx y Hy).
    assert (key y <> key x).
    { intros E. apply Hnot. rewrite <- E. now apply in_map. }
    lia.
Qed.

(** Two lists in strictly descending order with the same elements are the
    same list. *)
Lemma strictly_descending_unique l1 : forall l2,
  StronglySorted (fun a b => (key b < key a)%Z) l1 ->
  StronglySorted (fun a b => (key b < key a)%Z) l2 ->
  Permutation l1 l2 -> l1 = l2.
Proof.
  induction l1 as [|x t IH]; intros l2 H1 H2 P.
  - apply Permutation_nil in P. now subst.
  - destruct l2 as [|y u];
      [apply Permutation_sym, Permutation_nil in P; discriminate|].
    inversion H1 as [|? ? Ht Hx]; subst.
    inversion H2 as [|? ? Hu Hy]; subst.
    rewrite Forall_forall in Hx, Hy.
    assert (E : x = y).
    { assert (Ix : In x (y :: u))
        by (apply (Permutation_in _ P); now left).
      assert (Iy : In y (x :: t))
        by (apply (Permutation_in _ (Permutation_sym P)); now left).
      destruct Ix as [Ix|Ix]; [now subst|].
      destruct Iy as [Iy|Iy]; [now subst|].
      specialize (Hx y Iy). specialize (Hy x Ix). lia. }
    subst y. f_equal. apply IH; auto.
    now apply Permutation_cons_inv in P.
Qed.

End SortedUnique.

(** X13. When the dates are valid and no two items have the same time, the
    order of the feed does not depend on the order in which the items were
    collected, hence not on the order of the repositories in the
    configuration. *)
Theorem feed_order_ignores_collection_order (Date_parse : jsstring -> Date)
    (items items' : list FeedItem) :
  Forall (fun item => getTime Date_parse (publishedAt item) <> None) items ->
  NoDup (map (sortKey Date_parse) items) ->
  Permutation items items' ->
  sortedItems Date_parse items' = sortedItems Date_parse items.
Proof.
  intros Hd Hn P.
  set (dom := fun item : FeedItem =>
                getTime Date_parse (publishedAt item) <> None).
  assert (Hd' : Forall dom items').
  { rewrite Forall_forall in *. intros x Hx. apply Hd.
    now apply (Permutation_in _ (Permutation_sym P)). }
  assert (Ps : Permutation (sortedItems Date_parse items')
                           (sortedItems Date_parse items)).
  { unfold sortedItems. rewrite <- !sort_perm. now symmetry. }
  apply strictly_descending_unique with (key := sortKey Date_parse); auto.
  - apply descending_strict.
    + apply sort_descending with (dom := dom); auto using compareFn_key.
    + apply (Permutation_NoDup (l := map (sortKey Date_parse) items)); auto.
      apply Permutation_map. rewrite Ps. apply sort_perm.
  - apply descending_strict.
    + apply sort_descending with (dom := dom); auto using compareFn_key.
    + apply (Permutation_NoDup (l := map (sortKey Date_parse) items)); auto.
      apply Permutation_map. apply sort_perm.
Qed.

Lemma feed_order_ignores_collection_order_witness :
  let items := selectReleases (marked_parse example_world) react_config
                 react_releases in
  sortedItems isoDateParse (rev items) = sortedItems isoDateParse items.
Proof.
  intros items.
  assert (Hd : Forall (fun item =>
                         getTime isoDateParse (publishedAt item) <> None)
                 items).
  { repeat constructor; vm_compute; discriminate. }
  assert (Hn : NoDup (map (sortKey isoDateParse) items)).
  { assert (E : map (sortKey isoDateParse) items
                = [1733422200000; 1714064400000]%Z)
      by (vm_compute; reflexivity).
    rewrite E. repeat constructor; cbn [In]; intuition discriminate. }
  exact (@feed_order_ignores_collection_order isoDateParse items (rev items)
           Hd Hn (Permutation_rev items)).
Defined.

(* ================================================================== *)
(** * How often the clock is read *)
(* ================================================================== *)

(** X14. Building the feed succeeds exactly when every item has its link.
    It then reads the clock once for each item whose [publishedAt] is
    missing or empty and once more, after the items, for the build date:
    the build date is the last reading. *)
Theorem clock_readings_of_feed (Date_parse : jsstring -> Date)
    (clock : nat -> Z) (items : list FeedItem) (n : nat) :
  let readings := (n + undatedCount items)%nat in
  isOk (fst (buildRssFeed Date_parse clock items n)) = forallb hasLink items
  /\ match mapC (renderItem Date_parse clock)
              (sortedItems Date_parse items) n with
     | (Ok texts, _) =>
         buildRssFeed Date_parse clock items n
         = (Ok (join newline
                  (channelHead
                   ++ [buildDateLine Date_parse (clock readings)]
                   ++ channelTail (join [] texts))),
            S readings)
     | (Err e, _) => fst (buildRssFeed Date_parse clock items n) = Err e
     end.
Proof.
  intros readings. split; [apply buildRssFeed_ok|].
  rewrite buildRssFeed_mapped.
  destruct (mapC (renderItem Date_parse clock)
              (sortedItems Date_parse items) n) as [[texts|e] k] eqn:Em;
    [|reflexivity].
  destruct (renderItems_texts Date_parse clock _ n Em) as [_ Hk].
  rewrite undatedCount_sorted in Hk. now subst k.
Qed.

(* ================================================================== *)
(** * A date that does not parse *)
(* ================================================================== *)

(** X15. An item whose [publishedAt] is not empty but is not a date for
    [Date.parse] is printed, when it has its link, with the publication
    date [Invalid Date], without a reading of the clock, and every
    comparison of the sort with it is NaN. *)
Theorem unparsable_date (Date_parse : jsstring -> Date) (clock : nat -> Z)
    (item : FeedItem) (p : jsstring) :
  publishedAt item = Some p -> p <> [] -> Date_parse p = None ->
  (forall n, renderItem Date_parse clock item n
             = (match htmlUrl item with
                | Some link => Ok (itemText item link (js "Invalid Date"))
                | None => Err undefinedReplace
                end, n))
  /\ (forall other, compareFn Date_parse item other = JNaN
                    /\ compareFn Date_parse other item = JNaN).
Proof.
  intros Hp Hne Hd. split.
  - intros n. rewrite renderItem_dated.
    + unfold datedText, textWith. rewrite Hp. cbn [nullish]. now rewrite Hd.
    + rewrite Hp. destruct p; [contradiction|reflexivity].
  - intros other. unfold compareFn. rewrite Hp. cbn [getTime]. rewrite Hd.
    split; [|reflexivity].
    now destruct (getTime Date_parse (publishedAt other)).
Qed.

Lemma unparsable_date_witness :
  (forall n, renderItem isoDateParse (fun _ => 0%Z)
               (dated undated_item "yesterday") n
             = (Ok (itemText (dated undated_item "yesterday")
                      (js "https://github.com/nodejs/node/releases/tag/v0.1.0")
                      (js "Invalid Date")), n))
  /\ (forall other,
        compareFn isoDateParse (dated undated_item "yesterday") other = JNaN
        /\ compareFn isoDateParse other (dated undated_item "yesterday")
           = JNaN).
Proof.
  assert (Hd : isoDateParse (js "yesterday") = None)
    by (vm_compute; reflexivity).
  assert (Hne : js "yesterday" <> []) by discriminate.
  exact (@unparsable_date isoDateParse (fun _ => 0%Z)
           (dated undated_item "yesterday") (js "yesterday")
           eq_refl Hne Hd).
Defined.

(* ================================================================== *)
(** * The entries of the configuration *)
(* ================================================================== *)

Lemma parseConfigEntry_valid entry :
  validEntry entry = true -> exists c, parseConfigEntry entry = Ok c.
Proof. destruct entry; cbn; eauto. discriminate. Qed.

(** X16. The entries are parsed in order and the first one that is neither a
    string nor an object with a slug decides: its message is the error, and
    nothing of the entries before or after it is kept. *)
Theorem first_invalid_entry_decides (entries : list ConfigEntry)
    (message : jsstring) :
  parseConfigEntries entries = Err message
  <-> exists before json after,
        entries = before ++ EntryOther json :: after
        /\ forallb validEntry before = true
        /\ message = js "Invalid repository entry: " ++ json.
Proof.
  revert message. induction entries as [|e es IH]; intros message.
  - cbn. split; [discriminate|].
    intros (before & json & after & E & _). now destruct before.
  - cbn [parseConfigEntries].
    destruct (validEntry e) eqn:Ev.
    + destruct (parseConfigEntry_valid e Ev) as (c & ->).
      destruct (parseConfigEntries es) as [cs|msg].
      * split; [discriminate|].
        intros (before & json & after & E & Hv & Hm).
        destruct before as [|b before];
          [injection E as -> _; discriminate|].
        injection E as <- E. cbn [forallb] in Hv.
        apply andb_prop in Hv as [_ Hv].
        assert (H : Ok cs = Err message)
          by (apply IH; exists before, json, after; auto).
        discriminate.
      * split.
        -- intros H. injection H as <-.
           destruct (proj1 (IH msg) eq_refl)
             as (before & json & after & E & Hv & Hm).
           exists (e :: before), json, after. subst es.
           cbn [forallb app]. rewrite Ev, Hv. auto.
        -- intros (before & json & after & E & Hv & Hm).
           destruct before as [|b before];
             [injection E as -> _; discriminate|].
           injection E as <- E. cbn [forallb] in Hv.
           apply andb_prop in Hv as [_ Hv].
           apply IH. exists before, json, after; auto.
    + destruct e as [s|c|j]; try discriminate. cbn [parseConfigEntry].
      split.
      * intros H. injection H as <-. exists [], j, es. auto.
      * intros (before & json & after & E & Hv & Hm).
        destruct before as [|b before].
        -- injection E as <- _. now subst.
        -- injection E as <- _. discriminate.
Qed.

Lemma first_invalid_entry_decides_witness :
  parseConfigEntries
    [EntrySlug (js "facebook/react"); EntryOther (js "42");
     EntryOther (js "null")]
  = Err (js "Invalid repository entry: 42").
Proof.
  apply (proj2 (first_invalid_entry_decides
                  [EntrySlug (js "facebook/react"); EntryOther (js "42");
                   EntryOther (js "null")]
                  (js "Invalid repository entry: 42"))).
  exists [EntrySlug (js "facebook/react")], (js "42"),
         [EntryOther (js "null")].
  split; [reflexivity|]. split; reflexivity.
Defined.

(* ================================================================== *)
(** * The loop of [main] *)
(* ================================================================== *)

(** X17. The loop over the repositories composes: what it collects for a
    list of repositories followed by another is what it collects for the
    first followed by what it collects for the second, for the items and for
    the error lines alike. *)
Theorem processRepos_app (w : World)
    (first second : list NormalizedRepoConfig) :
  processRepos w (first ++ second)
  = (fst (processRepos w first) ++ fst (processRepos w second),
     snd (processRepos w first) ++ snd (processRepos w second)).
Proof.
  unfold processRepos. rewrite fold_left_app.
  rewrite (processRepos_from w first [] []).
  rewrite !processRepos_from. cbn [app fst snd]. reflexivity.
Qed.

Lemma buildRssFeed_nil Date_parse clock n :
  buildRssFeed Date_parse clock [] n
  = (Ok (join newline
           (channelHead ++ [buildDateLine Date_parse (clock n)]
            ++ channelTail [])),
     S n).
Proof. now rewrite buildRssFeed_mapped. Qed.

(** X18. When the configuration is valid and the file can be written, the
    warning that no release was found is printed exactly when no repository
    gave an item, and it is then the first line; the feed written then has
    the channel and no item. *)
Theorem empty_feed_is_written (w : World) (entries : list ConfigEntry)
    (repositories : list NormalizedRepoConfig) :
  config_file w = Ok (Some entries) ->
  parseConfigEntries entries = Ok repositories ->
  write_error w = None ->
  (In noReleasesWarning (console (run w)) <-> successes w repositories = [])
  /\ (successes w repositories = [] ->
      hd_error (console (run w)) = Some noReleasesWarning
      /\ written (run w)
         = Some (join newline
                   (channelHead
                    ++ [buildDateLine (Date_parse w) (clock w 0)]
                    ++ channelTail []))).
Proof.
  intros Hc Hp Hw. rewrite (run_settled w Hc Hp), Hw. cbv zeta.
  destruct (successes w repositories) as [|item items] eqn:Es.
  - rewrite buildRssFeed_nil.
    cbn [List.length Nat.eqb fst written console app].
    split.
    + split; [reflexivity|]. intros _. now left.
    + intros _. split; reflexivity.
  - cbn [List.length Nat.eqb app].
    split; [|discriminate].
    split; [|discriminate]. intros H. exfalso.
    destruct (fst (buildRssFeed (Date_parse w) (clock w) (item :: items) 0))
      as [feed|e]; cbn [console app] in H.
    + destruct (0 <? List.length (failures w repositories));
        cbn in H; unfold noReleasesWarning in H;
        repeat (destruct H as [H|H]; try discriminate H); try contradiction.
    + unfold noReleasesWarning in H.
      destruct H as [H|H]; [discriminate H|contradiction].
Qed.

Lemma empty_feed_is_written_witness :
  In noReleasesWarning (console (run offline_world))
  /\ hd_error (console (run offline_world)) = Some noReleasesWarning
  /\ written (run offline_world)
     = Some (join newline
               (channelHead
                ++ [buildDateLine (Date_parse offline_world)
                      (clock offline_world 0)]
                ++ channelTail [])).
Proof.
  destruct (@empty_feed_is_written offline_world
              [ EntryObject {| entry_slug := js "facebook/react";
                               entry_maxReleases := Some 2%Z;
                               entry_includePatchReleases := None |};
                EntryObject {| entry_slug := js "nodejs/node";
                               entry_maxReleases := Some 2%Z;
                               entry_includePatchReleases := None |};
                EntrySlug (js "ghost/missing") ]
              [react_config; node_config; missing_config]
              eq_refl eq_refl eq_refl) as [Hin Hfeed].
  assert (E : successes offline_world
                [react_config; node_config; missing_config] = [])
    by (vm_compute; reflexivity).
  split; [apply Hin, E|apply Hfeed, E].
Defined.
